(** * Zutty: font-pack resolution (fontpack.cc) and frame hand-off (renderer.cc)

  A shallow embedding of the two translation units and the properties
  of the design document that concern them.

  - [CStr]     : the libc string routines the font filter relies on.
  - [Fontpack] : [SearchState], [saveCandidate], [fontFileFilter], the
                 nftw(3) walk that drives the filter, and the
                 [Fontpack] constructor.
  - [Renderer] : the shared frame slot, [update], the destructor and
                 the render thread as a labelled transition system. *)

From Stdlib Require Import ZArith Bool List Ascii String Lia.
Import ListNotations.

Local Open Scope string_scope.
Local Open Scope Z_scope.

(* ================================================================== *)
(** ** C strings *)
(* ================================================================== *)

Module CStr.

(** A NUL-terminated C string is the [string] of the characters before
    its terminator.  A pointer into a buffer [s] is an offset [p]; the
    C string seen through it is [from s p]. *)

Fixpoint from (s : string) (p : nat) {struct p} : string :=
  match p, s with
  | O, _ => s
  | S p', String _ r => from r p'
  | S _, EmptyString => EmptyString
  end.

(** [s[i]]; reading the terminator (or past it) yields NUL. *)
Fixpoint at_ (s : string) (i : nat) : ascii :=
  match s, i with
  | EmptyString, _ => zero
  | String c _, O => c
  | String _ r, S i' => at_ r i'
  end.

(** The first [n] characters of [s]. *)
Fixpoint take (n : nat) (s : string) : string :=
  match n, s with
  | S n', String c r => String c (take n' r)
  | _, _ => EmptyString
  end.

(** No character of the string is NUL, as in every C string. *)
Fixpoint nul_free (s : string) : bool :=
  match s with
  | EmptyString => true
  | String c r => negb (Ascii.eqb c zero) && nul_free r
  end.

Definition uchar (c : ascii) : Z := Z.of_N (N_of_ascii c).

(** tolower(3) in the "C" locale. *)
Definition tolower (c : ascii) : ascii :=
  let n := N_of_ascii c in
  if ((65 <=? n) && (n <=? 90))%N then ascii_of_N (n + 32) else c.

(** strrchr(s, c) for a non-NUL [c]: offset of the last occurrence. *)
Fixpoint strrchr (s : string) (c : ascii) : option nat :=
  match s with
  | EmptyString => None
  | String a r =>
      match strrchr r c with
      | Some i => Some (S i)
      | None => if Ascii.eqb a c then Some O else None
      end
  end.

(** strcasecmp(3): difference of the first pair of characters that
    differ after case folding, the terminator counting as NUL. *)
Fixpoint strcasecmp (s1 s2 : string) : Z :=
  match s1, s2 with
  | EmptyString, EmptyString => 0
  | EmptyString, String c2 _ => 0 - uchar (tolower c2)
  | String c1 _, EmptyString => uchar (tolower c1) - 0
  | String c1 r1, String c2 r2 =>
      if Ascii.eqb (tolower c1) (tolower c2)
      then strcasecmp r1 r2
      else uchar (tolower c1) - uchar (tolower c2)
  end.

(** strncasecmp(3): as [strcasecmp], over at most [n] characters. *)
Fixpoint strncasecmp (s1 s2 : string) (n : Z) : Z :=
  if n <=? 0 then 0 else
  match s1, s2 with
  | EmptyString, EmptyString => 0
  | EmptyString, String c2 _ => 0 - uchar (tolower c2)
  | String c1 _, EmptyString => uchar (tolower c1) - 0
  | String c1 r1, String c2 r2 =>
      if Ascii.eqb (tolower c1) (tolower c2)
      then strncasecmp r1 r2 (n - 1)
      else uchar (tolower c1) - uchar (tolower c2)
  end.

Definition strlen (s : string) : Z := Z.of_nat (String.length s).

(** Conversion of a pointer difference to [size_t] (LP64). *)
Definition to_size_t (z : Z) : Z := z mod 2 ^ 64.

End CStr.

(* ================================================================== *)
(** ** nftw(3) *)
(* ================================================================== *)

Module Ftw.

(** The tree walk of the C library, which fontpack.cc drives through a
    callback.  It is described here as POSIX and the ftw(3) manual
    specify it for the flags the constructor passes (FTW_DEPTH alone):
    "FTW_DEPTH: report all files in a directory before reporting the
    directory itself", and for the type flags "FTW_D: the object is a
    directory" (with FTW_DEPTH clear, directories are always visited
    with this flag) against "FTW_DP: the object is a directory and
    subdirectories have been visited; this condition only occurs if
    FTW_DEPTH is included in flags". *)

(** Type flags passed to the callback, as <ftw.h> enumerates them. *)
Inductive tflag := FTW_F | FTW_D | FTW_DNR | FTW_NS | FTW_SL | FTW_DP | FTW_SLN.

Definition tflag_eqb (a b : tflag) : bool :=
  match a, b with
  | FTW_F, FTW_F | FTW_D, FTW_D | FTW_DNR, FTW_DNR | FTW_NS, FTW_NS
  | FTW_SL, FTW_SL | FTW_DP, FTW_DP | FTW_SLN, FTW_SLN => true
  | _, _ => false
  end.

(** [struct FTW]: offset of the file name in [fpath], and the depth of
    the object below the starting point (which has depth 0). *)
Record FTW := mkFTW { base : nat; level : Z }.

(** Objects the walk cannot descend into or classify as a file. *)
Inductive special := Unreadable | Unstatable | Dangling.

Definition special_tflag (k : special) : tflag :=
  match k with
  | Unreadable => FTW_DNR
  | Unstatable => FTW_NS
  | Dangling => FTW_SLN
  end.

(** A file tree as the walk sees it (symbolic links followed, since
    FTW_PHYS is not set); the entries of a directory are listed in the
    order readdir(3) yields them. *)
Inductive node :=
| File
| Dir (entries : list entry)
| Special (k : special)
with entry :=
| Entry (name : string) (n : node).

Definition entry_node (e : entry) : node :=
  match e with Entry _ n => n end.

(** Structural induction on trees: a directory has the property as
    soon as the nodes of all its entries have it. *)
Fixpoint node_ind' (P : node -> Prop)
         (HF : P File)
         (HD : forall es, Forall (fun e => P (entry_node e)) es -> P (Dir es))
         (HS : forall k, P (Special k))
         (n : node) : P n :=
  match n with
  | File => HF
  | Special k => HS k
  | Dir es =>
      HD es ((fix all (l : list entry) : Forall (fun e => P (entry_node e)) l :=
                match l with
                | [] => Forall_nil _
                | Entry name c :: r =>
                    Forall_cons (Entry name c) (node_ind' P HF HD HS c) (all r)
                end) es)
  end.

(** Path of an entry [name] of the directory [dir]: a slash is added
    unless [dir] already ends in one. *)
Definition ends_in_slash (dir : string) : bool :=
  match String.length dir with
  | O => false
  | S n => Ascii.eqb (CStr.at_ dir n) "/"
  end.

Definition dir_prefix (dir : string) : string :=
  if ends_in_slash dir then dir else dir ++ "/".

(** Offset of the last path component of the starting path. *)
Definition start_base (dirpath : string) : nat :=
  match CStr.strrchr dirpath "/" with
  | Some i => S i
  | None => O
  end.

Section Walk.

Context {St : Type}.
Variable fn : string -> tflag -> FTW -> St -> Z * St.

(** The walk with FTW_DEPTH set and FTW_PHYS clear.  Every entry of a
    directory is handled before the directory itself, which is then
    reported with type flag FTW_DP.  An entry of a directory at depth
    [lvl] has depth [lvl + 1].  The walk stops at the first non-zero
    value the callback returns, and returns that value. *)
Fixpoint visit (fpath : string) (b : nat) (lvl : Z) (n : node) (st : St)
  : Z * St :=
  match n with
  | File => fn fpath FTW_F (mkFTW b lvl) st
  | Special k => fn fpath (special_tflag k) (mkFTW b lvl) st
  | Dir es =>
      let pre := dir_prefix fpath in
      let fix entries (es : list entry) (st : St) : Z * St :=
        match es with
        | [] => (0, st)
        | Entry name c :: r =>
            let '(rc, st') :=
              visit (pre ++ name) (String.length pre) (lvl + 1) c st in
            if rc =? 0 then entries r st' else (rc, st')
        end in
      let '(rc, st') := entries es st in
      if rc =? 0 then fn fpath FTW_DP (mkFTW b lvl) st' else (rc, st')
  end.

(** [nftw (dirpath, fn, nopenfd, FTW_DEPTH)] over the file system in
    which [dirpath] names [root] ([None]: it names nothing, and the
    call returns -1 without invoking the callback). *)
Definition nftw (root : option node) (dirpath : string) (st : St) : Z * St :=
  match root with
  | None => (-1, st)
  | Some n => visit dirpath (start_base dirpath) 0 n st
  end.

End Walk.

End Ftw.

(* ================================================================== *)
(** ** fontpack.cc *)
(* ================================================================== *)

Module Fontpack.
Import CStr.
Import Ftw(tflag, FTW_F, FTW_D, FTW_DNR, FTW_NS, FTW_SL, FTW_DP, FTW_SLN,
           FTW, tflag_eqb, base, node).

(** [struct SearchState]; [fontname]/[fontnamelen] are the view
    [fontname.data ()] / [fontname.size ()] of the requested family. *)
Record SearchState := mkSearchState {
  fontname : string;
  fontnamelen : Z;
  level : Z;
  ext : string;
  regular : string;
  bold : string;
  italic : string;
  boldItalic : string
}.

(** The namespace-scope object [SearchState sstate;] together with the
    lines handed to the loggers [logT] (trace) and [logE] (error) make
    up the mutable globals the translation unit works on. *)
Record Globals := mkGlobals {
  sstate : SearchState;
  logT : list string;
  logE : list string
}.

(** Value of [sstate] after static initialisation (the default member
    initialisers; the null [fontname] is the empty string). *)
Definition sstate_init : SearchState :=
  mkSearchState "" 0 0 "" "" "" "" "".

Definition globals_init : Globals := mkGlobals sstate_init [] [].

(** The [std::string& dest] parameter of [saveCandidate] always refers
    to one of four members of [sstate]. *)
Inductive variant := Regular | Bold | Italic | BoldItalic.

Definition variant_name (v : variant) : string :=
  match v with
  | Regular => "Regular"
  | Bold => "Bold"
  | Italic => "Italic"
  | BoldItalic => "BoldItalic"
  end.

Definition dest (v : variant) (s : SearchState) : string :=
  match v with
  | Regular => regular s
  | Bold => bold s
  | Italic => italic s
  | BoldItalic => boldItalic s
  end.

Definition set_dest (v : variant) (p : string) (s : SearchState) : SearchState :=
  match v with
  | Regular =>
      mkSearchState (fontname s) (fontnamelen s) (level s) (ext s)
                    p (bold s) (italic s) (boldItalic s)
  | Bold =>
      mkSearchState (fontname s) (fontnamelen s) (level s) (ext s)
                    (regular s) p (italic s) (boldItalic s)
  | Italic =>
      mkSearchState (fontname s) (fontnamelen s) (level s) (ext s)
                    (regular s) (bold s) p (boldItalic s)
  | BoldItalic =>
      mkSearchState (fontname s) (fontnamelen s) (level s) (ext s)
                    (regular s) (bold s) (italic s) p
  end.

Definition set_ext_level (e : string) (l : Z) (s : SearchState) : SearchState :=
  mkSearchState (fontname s) (fontnamelen s) l e
                (regular s) (bold s) (italic s) (boldItalic s).

Definition set_fontname (name : string) (s : SearchState) : SearchState :=
  mkSearchState name (strlen name) (level s) (ext s)
                (regular s) (bold s) (italic s) (boldItalic s).

(** The six assignments of the "clear partial results" branch. *)
Definition clear_results (s : SearchState) : SearchState :=
  mkSearchState (fontname s) (fontnamelen s) 0 "" "" "" "" "".

Definition trace (line : string) (g : Globals) : Globals :=
  mkGlobals (sstate g) (logT g ++ [line]) (logE g).

Definition error (line : string) (g : Globals) : Globals :=
  mkGlobals (sstate g) (logT g) (logE g ++ [line]).

Definition with_sstate (f : SearchState -> SearchState) (g : Globals) : Globals :=
  mkGlobals (f (sstate g)) (logT g) (logE g).

Definition reject_message (e committed : string) : string :=
  "Rejecting candidate because its extension: '" ++ e
    ++ "' does not match the other(s): '" ++ committed ++ "'".

(** [saveCandidate (fpath, ext, level, variant, dest)]; [dest] is the
    member of [sstate] selected by [v]. *)
Definition saveCandidate (g : Globals) (fpath e : string) (lvl : Z)
           (v : variant) : Z * Globals :=
  let g := trace (variant_name v ++ ": " ++ fpath) g in
  if negb (String.eqb (ext (sstate g)) "")
     && negb (String.eqb (ext (sstate g)) e)
  then (1, trace (reject_message e (ext (sstate g))) g)
  else (0, with_sstate (fun s => set_ext_level e lvl (set_dest v fpath s)) g).

(** The loop [do --ext; while (ext > fname && ext [0] != '.');] entered
    with [ext > fname]; [p] is the pointer after the first decrement. *)
Fixpoint back_to_dot (fname : string) (p : nat) : nat :=
  match p with
  | O => O
  | S p' => if Ascii.eqb (at_ fname p) "." then p else back_to_dot fname p'
  end.

(** "Filter by extension", first half: the pointer [ext] into [fname]
    ([None]: the name has no dot and the file is dropped). *)
Definition find_ext (fname : string) : option nat :=
  match strrchr fname "." with
  | None => None
  | Some e =>
      if (strcasecmp (from fname e) ".gz" =? 0) && (0 <? e)%nat
      then Some (back_to_dot fname (e - 1))
      else Some e
  end.

(** "Filter by extension", second half. *)
Definition known_ext (e : string) : bool :=
  negb (negb (strcasecmp e ".ttf" =? 0)
        && negb (strcasecmp e ".otf" =? 0)
        && negb (strcasecmp e ".pcf.gz" =? 0)).

(** "Filter by extension" as a whole: the pointer [ext] of a file that
    passes, [None] for a file that is dropped. *)
Definition ext_filter (fname : string) : option nat :=
  match find_ext fname with
  | None => None
  | Some e => if negb (known_ext (from fname e)) then None else Some e
  end.

Definition is_separator (c : ascii) : bool :=
  Ascii.eqb c "-" || Ascii.eqb c "_" || Ascii.eqb c " ".

(** The if / else-if chain over the mid part: which member of [sstate]
    the file is offered to, if any. *)
Definition classify (mid : string) (midlen : Z) : option variant :=
  let eq (w : string) := strncasecmp mid w midlen =? 0 in
  if (midlen =? 0) || eq "R" || eq "Regular" then Some Regular
  else if eq "B" || eq "Bold" then Some Bold
  else if eq "I" || eq "It" || eq "Italic"
          || eq "O" || eq "Ob" || eq "Oblique" then Some Italic
  else if eq "BI" || eq "BoldIt" || eq "BoldItalic" then Some BoldItalic
  else None.

(** The mid part: pointer and length, after the optional separator has
    been skipped.  [e] is the pointer [ext]. *)
Definition mid_part (fname : string) (namelen : Z) (e : nat) : nat * Z :=
  let mid := Z.to_nat namelen in
  let midlen := to_size_t (Z.of_nat e - namelen) in
  if (0 <? midlen) && is_separator (at_ fname mid)
  then (S mid, midlen - 1)
  else (mid, midlen).

(** [fontFileFilter (fpath, sb, tflag, ftwbuf)]; [sb] is not used. *)
Definition fontFileFilter (fpath : string) (tf : tflag) (ftwbuf : FTW)
           (g : Globals) : Z * Globals :=
  let s := sstate g in
  if tflag_eqb tf FTW_D
     && (0 <? level s) && (Ftw.level ftwbuf =? level s - 1)
     && (0 <? strlen (regular s))
  then (1, g)
  else if tflag_eqb tf FTW_D && (0 <? level s)
  then (0, with_sstate clear_results
             (trace "Some candidates found but no regular variant; continuing" g))
  else if negb (tflag_eqb tf FTW_F)
  then (0, g)
  else
    let fname := from fpath (base ftwbuf) in
    match ext_filter fname with
    | None => (0, g)
    | Some e =>
        if negb (strncasecmp fname (fontname s) (fontnamelen s) =? 0)
        then (0, g)
        else
          let '(mid, midlen) := mid_part fname (fontnamelen s) e in
          match classify (from fname mid) midlen with
          | Some v =>
              (0, snd (saveCandidate g fpath (from fname e) (Ftw.level ftwbuf) v))
          | None => (0, g)
          end
    end.

(** What the constructor hands to the face loader: the path of the
    Regular face, and for each other variant the path loaded with the
    Regular face as reference, when one was found. *)
Record Faces := mkFaces {
  fontRegular : string;
  fontBold : option string;
  fontItalic : option string;
  fontBoldItalic : option string
}.

Inductive outcome :=
| SysError (what : string)
| RuntimeError (what : string)
| Constructed (f : Faces).

Definition if_found (path : string) : option string :=
  if 0 <? strlen path then Some path else None.

(** Modelled from the spec: the macro [SYS_ERROR] of log.h, which is
    not part of the sources at hand; "the tree cannot be walked" is
    fatal at startup and initialisation aborts. *)
Definition SYS_ERROR (what : string) : outcome := SysError what.

(** [Fontpack::Fontpack (fontpath, fontname)], run in the file system
    where [fontpath] names [root]. *)
Definition Fontpack (root : option node) (fontpath name : string)
           (g : Globals) : outcome * Globals :=
  let g := trace ("Fontpack: fontpath=" ++ fontpath ++ "; fontname=" ++ name) g in
  let g := with_sstate (set_fontname name) g in
  let '(rc, g) := Ftw.nftw fontFileFilter root fontpath g in
  if rc =? -1 then (SYS_ERROR "Cannot walk file tree; nftw()", g)
  else if negb (0 <? strlen (regular (sstate g)))
  then (RuntimeError ("No suitable files for '" ++ name ++ "' found!"),
        error ("No Regular variant of the requested font '" ++ name
                 ++ "' could be identified.") g)
  else (Constructed (mkFaces (regular (sstate g))
                             (if_found (bold (sstate g)))
                             (if_found (italic (sstate g)))
                             (if_found (boldItalic (sstate g)))), g).

End Fontpack.


(* ================================================================== *)
(** ** frame.h and charvdev.h, as renderer.cc uses them *)
(* ================================================================== *)

Module Frame.

Section Def.

Variables Cursor Selection Cells : Type.

(** [Frame] is declared in frame.h, which is not among the sources at
    hand; these are the members renderer.cc refers to.  [seqNo] holds a
    value of an unsigned integer type, kept here as its value in [Z]. *)
Record Frame := mk {
  seqNo : Z;
  winPx : Z;
  winPy : Z;
  nCols : Z;
  nRows : Z;
  cursor : Cursor;
  selection : Selection;
  cells : Cells
}.

Definition with_seqNo (n : Z) (f : Frame) : Frame :=
  mk n (winPx f) (winPy f) (nCols f) (nRows f)
     (cursor f) (selection f) (cells f).

(** The drawing engine [CharVdev], reduced to the member functions the
    render thread calls; [V] is the state of the object. *)
Class CharVdevOps (V : Type) := mkCharVdevOps {
  construct : V;
  resize : Z -> Z -> V -> bool * V;
  getMapping : V -> Z * Z;
  copyCells : Frame -> V -> V;
  deltaCopyCells : Frame -> V -> V;
  setDeltaFrame : bool -> V -> V;
  setCursor : Cursor -> V -> V;
  setSelection : Selection -> V -> V;
  draw : V -> V
}.

End Def.

Arguments mk {Cursor Selection Cells}.
Arguments seqNo {Cursor Selection Cells}.
Arguments winPx {Cursor Selection Cells}.
Arguments winPy {Cursor Selection Cells}.
Arguments nCols {Cursor Selection Cells}.
Arguments nRows {Cursor Selection Cells}.
Arguments cursor {Cursor Selection Cells}.
Arguments selection {Cursor Selection Cells}.
Arguments cells {Cursor Selection Cells}.
Arguments with_seqNo {Cursor Selection Cells}.
Arguments construct {Cursor Selection Cells V _}.
Arguments resize {Cursor Selection Cells V _}.
Arguments getMapping {Cursor Selection Cells V _}.
Arguments copyCells {Cursor Selection Cells V _}.
Arguments deltaCopyCells {Cursor Selection Cells V _}.
Arguments setDeltaFrame {Cursor Selection Cells V _}.
Arguments setCursor {Cursor Selection Cells V _}.
Arguments setSelection {Cursor Selection Cells V _}.
Arguments draw {Cursor Selection Cells V _}.

End Frame.

(* ================================================================== *)
(** ** The design document's wording, for comparison with the code *)
(* ================================================================== *)

Module Documented.
Import CStr Fontpack.

(** The rule for recording a candidate, read off the design document:
    the new file is turned down when a candidate is already held for
    its variant and the extension differs from the committed one, and
    is recorded in every other case. *)
Definition records_as_documented (g : Globals) (fpath e : string) (lvl : Z)
           (v : variant) : Prop :=
  let s := sstate g in
  let r := saveCandidate g fpath e lvl v in
  if negb (String.eqb (dest v s) "") && negb (String.eqb (ext s) e)
  then fst r = 1 /\ sstate (snd r) = s
  else fst r = 0 /\ dest v (sstate (snd r)) = fpath
       /\ ext (sstate (snd r)) = e /\ level (sstate (snd r)) = lvl.

(** Case folding of a whole string. *)
Fixpoint lower (s : string) : string :=
  match s with
  | EmptyString => EmptyString
  | String c r => String (tolower c) (lower r)
  end.

Definition one_of (words : list string) (s : string) : bool :=
  existsb (String.eqb (lower s)) words.

Definition same_ignoring_case (a b : string) : bool :=
  String.eqb (lower a) (lower b).

(** The final dot-delimited suffix of a name: from its last dot on. *)
Fixpoint last_suffix (s : string) : option string :=
  match s with
  | EmptyString => None
  | String c r =>
      match last_suffix r with
      | Some suf => Some suf
      | None => if Ascii.eqb c "." then Some s else None
      end
  end.

(** The name with its final suffix removed. *)
Fixpoint without_last_suffix (s : string) : string :=
  match s with
  | EmptyString => EmptyString
  | String c r =>
      match last_suffix r with
      | Some _ => String c (without_last_suffix r)
      | None => EmptyString
      end
  end.

(** The extension of the design document: the final suffix, merged
    with the suffix before it when it is ".gz" in any case. *)
Definition extension (fname : string) : option string :=
  match last_suffix fname with
  | None => None
  | Some suf =>
      if same_ignoring_case suf ".gz"
      then match last_suffix (without_last_suffix fname) with
           | Some prev => Some (prev ++ suf)
           | None => Some suf
           end
      else Some suf
  end.

(** The extension of a file that is not rejected. *)
Definition accepted_extension (fname : string) : option string :=
  match extension fname with
  | Some e => if one_of [".ttf"; ".otf"; ".pcf.gz"] e then Some e else None
  | None => None
  end.

(** The lexicon of the design document: the variant a mid part names,
    compared without regard to case; any other mid part names none. *)
Definition lexicon_variant (mid : string) : option variant :=
  if one_of [""; "r"; "regular"] mid then Some Regular
  else if one_of ["b"; "bold"] mid then Some Bold
  else if one_of ["i"; "it"; "italic"; "o"; "ob"; "oblique"] mid then Some Italic
  else if one_of ["bi"; "boldit"; "bolditalic"] mid then Some BoldItalic
  else None.

(** Traversal state scoped to one resolution: the outcome of a
    resolution started with the globals [g] is the outcome it has when
    started with the globals of a fresh process. *)
Definition independent_of_history (g : Globals) (root : option Ftw.node)
           (fontpath name : string) : Prop :=
  fst (Fontpack root fontpath name g)
  = fst (Fontpack root fontpath name globals_init).

End Documented.

(* ================================================================== *)
(** ** Concrete trees, states and collaborators used below *)
(* ================================================================== *)

Module Examples.
Import Ftw Fontpack.

(** fonts/Go/ with the four faces of the family, all TrueType. *)
Definition tree_go : node :=
  Dir [Entry "Go" (Dir [Entry "Go-Regular.ttf" File;
                        Entry "Go-Bold.ttf" File;
                        Entry "Go-Italic.ttf" File;
                        Entry "Go-BoldItalic.ttf" File])].

(** fonts/A/Go-Regular.ttf and, in the directory read next,
    fonts/B/Go-Bold.ttf. *)
Definition tree_siblings : node :=
  Dir [Entry "A" (Dir [Entry "Go-Regular.ttf" File]);
       Entry "B" (Dir [Entry "Go-Bold.ttf" File])].

(** fonts/Partial/Foo-Bold.ttf (no Regular below fonts/Partial) and, in
    the directory read next, fonts/Full/Foo-Regular.ttf. *)
Definition tree_partial : node :=
  Dir [Entry "Partial" (Dir [Entry "Foo-Bold.ttf" File]);
       Entry "Full" (Dir [Entry "Foo-Regular.ttf" File])].

(** fonts/Partial/Foo-Bold.ttf and nothing else. *)
Definition tree_bold_only : node :=
  Dir [Entry "Partial" (Dir [Entry "Foo-Bold.ttf" File])].

(** A directory without entries. *)
Definition tree_empty : node := Dir [].

(** The globals of a resolution of "Go" once the file
    fonts/Go/Go-Regular.ttf has been visited. *)
Definition g_regular_ttf : Globals :=
  snd (fontFileFilter "fonts/Go/Go-Regular.ttf" FTW_F (mkFTW 9 2)
         (with_sstate (set_fontname "Go") globals_init)).

(** The globals a first resolution of "Go" under [tree_go] leaves. *)
Definition g_after_go : Globals :=
  snd (Fontpack.Fontpack (Some tree_go) "fonts" "Go" globals_init).

(** A drawing engine that remembers the window size it was resized to
    last, with cells of one pixel; [resize] reports a change of size. *)
Definition vdev_ops : Frame.CharVdevOps unit unit unit (Z * Z) :=
  Frame.mkCharVdevOps unit unit unit (Z * Z)
    (0, 0)
    (fun px py v => (negb ((px =? fst v) && (py =? snd v)), (px, py)))
    (fun v => v)
    (fun _ v => v) (fun _ v => v) (fun _ v => v)
    (fun _ v => v) (fun _ v => v) (fun v => v).

(** A frame of 80 x 24 cells with the sequence number [n]. *)
Definition frame_80x24 (n : Z) : Frame.Frame unit unit unit :=
  Frame.mk n 80 24 80 24 tt tt tt.

End Examples.

(* ================================================================== *)
(** ** Notions used to state what the font search keeps and returns *)
(* ================================================================== *)

Module Props.
Import CStr Ftw Fontpack.

(** An object reported to the callback: path, type flag, [struct FTW]. *)
Definition report : Type := string * tflag * FTW.

(** The reports a walk makes when the callback never stops it, in
    order: the entries of a directory, then the directory itself. *)
Fixpoint reports (fpath : string) (b : nat) (lvl : Z) (n : node)
  : list report :=
  match n with
  | File => [(fpath, FTW_F, mkFTW b lvl)]
  | Special k => [(fpath, special_tflag k, mkFTW b lvl)]
  | Dir es =>
      let pre := dir_prefix fpath in
      ((fix entries (es : list entry) : list report :=
          match es with
          | [] => []
          | Entry name c :: r =>
              reports (pre ++ name) (String.length pre) (lvl + 1) c
                ++ entries r
          end) es
       ++ [(fpath, FTW_DP, mkFTW b lvl)])%list
  end.

(** The filter applied to one report, and to a list of them. *)
Definition filter1 (g : Globals) (r : report) : Globals :=
  let '(fpath, tf, ftwbuf) := r in snd (fontFileFilter fpath tf ftwbuf g).

Definition feed (rs : list report) (g : Globals) : Globals :=
  fold_left filter1 rs g.

(** [s] ends with [suf]. *)
Definition ends_with (s suf : string) : Prop := exists k, from s k = suf.

(** Every candidate held ends with the committed extension, which is
    one the filter accepts. *)
Definition consistent (s : SearchState) : Prop :=
  forall v, dest v s <> "" ->
            known_ext (ext s) = true /\ ends_with (dest v s) (ext s).


(** The candidate of [v] in [s'] is the one of [s], or the path of a
    regular file among the reports that passes the extension and the
    family-name tests. *)
Definition from_reports (rs : list report) (s s' : SearchState)
           (v : variant) : Prop :=
  dest v s' = dest v s
  \/ exists b lvl e,
       In (dest v s', FTW_F, mkFTW b lvl) rs
       /\ ext_filter (from (dest v s') b) = Some e
       /\ strncasecmp (from (dest v s') b) (fontname s) (fontnamelen s) = 0.

(** [mid] is, up to case, a beginning of the word [w]. *)
Definition begins (w mid : string) : bool :=
  String.eqb (Documented.lower mid)
             (Documented.lower (take (String.length mid) w))
  && (String.length mid <=? String.length w)%nat.

(** The variant of a mid part by beginnings of words. *)
Definition prefix_variant (mid : string) : option variant :=
  if (String.length mid =? 0)%nat || begins "Regular" mid then Some Regular
  else if begins "Bold" mid then Some Bold
  else if begins "Italic" mid || begins "Oblique" mid then Some Italic
  else if begins "BI" mid || begins "BoldItalic" mid then Some BoldItalic
  else None.

(** The text between the family name and the extension, without the
    separator it may start with. *)
Definition strip_separator (rest : string) : string :=
  match rest with
  | String c m => if is_separator c then m else rest
  | EmptyString => EmptyString
  end.

(** ** The pointer [ext] as a signed offset

    [find_ext] keeps the pointer [ext] as a natural offset into the
    name.  To see where the pointer can go, the same lines are written
    once more with [ext - fname] as a signed number, each read through
    the pointer being checked against the extent of the name. *)

Inductive ext_search : Type :=
| NoDot                (* strrchr returned a null pointer *)
| OutOfBounds (p : Z)  (* [ext [0]] was read at offset [p], outside the name *)
| Unfinished           (* the loop was cut off *)
| ExtAt (p : Z).       (* the pointer after the search *)

(** [ext [0]] with [ext = fname + p]: defined on the characters of the
    name and on its terminator. *)
Definition deref (fname : string) (p : Z) : option ascii :=
  if (0 <=? p) && (p <=? Z.of_nat (String.length fname))
  then Some (at_ fname (Z.to_nat p))
  else None.

(** [do --ext; while (ext > fname && ext [0] != '.');], cut off after
    [n] rounds. *)
Fixpoint do_while_ext (fname : string) (n : nat) (p : Z) : ext_search :=
  match n with
  | O => Unfinished
  | S n' =>
      let p := p - 1 in
      if 0 <? p then
        match deref fname p with
        | None => OutOfBounds p
        | Some c =>
            if negb (Ascii.eqb c ".") then do_while_ext fname n' p
            else ExtAt p
        end
      else ExtAt p
  end.

(** Lines 88 to 94 of the filter. *)
Definition ext_search_of (fname : string) : ext_search :=
  match strrchr fname "." with
  | None => NoDot
  | Some e =>
      let p := Z.of_nat e in
      if (strcasecmp (from fname e) ".gz" =? 0) && (0 <? p)
      then do_while_ext fname (S (String.length fname)) p
      else ExtAt p
  end.

End Props.

(* ================================================================== *)
(** ** renderer.cc *)
(* ================================================================== *)

Module Renderer.

(** Calls the render thread makes to its collaborators, in order. *)
Inductive call :=
| InitDisplay
| Resize (winPx winPy : Z) (resized : bool)
| GetMapping
| CopyCells
| DeltaCopyCells
| SetDeltaFrame (delta : bool)
| SetCursor
| SetSelection
| Draw
| SwapBuffers.

Definition is_draw_or_swap (c : call) : bool :=
  match c with
  | Draw | SwapBuffers => true
  | _ => false
  end.

(** Where the render thread stands: before [initDisplay], blocked in
    [cond.wait], between [lk.unlock ()] and the end of the loop body,
    returned, or stopped by a failed [assert]. *)
Inductive pc := Uninitialized | Waiting | Rendering | Terminated | Aborted.

Section Model.
Import Frame(construct, resize, getMapping, copyCells, deltaCopyCells,
             setDeltaFrame, setCursor, setSelection, draw).

Variables Cursor Selection Cells : Type.

Local Abbreviation Frame := (Frame.Frame Cursor Selection Cells).

Context {V : Type} {ops : Frame.CharVdevOps Cursor Selection Cells V}.

(** The declarations of [Renderer] and [Frame] (renderer.h, frame.h)
    are not part of the sources at hand; what the code below needs of
    them is taken as given: the number of values of the unsigned type
    of [seqNo], the default-constructed [Frame], and the initial value
    of the member [Renderer::seqNo]. *)
Variable seq_modulus : Z.
Variable Frame_default : Frame.
Variable seqNo_init : Z.

(** [x + 1] in the type of [seqNo]. *)
Definition succ (x : Z) : Z := (x + 1) mod seq_modulus.

(** The members guarded by the mutex [mx]. *)
Record Shared := mkShared {
  seqNo : Z;
  nextFrame : Frame;
  done : bool
}.

(** The locals of [renderThread] and the member [charVdev], which only
    the render thread uses. *)
Record Thread := mkThread {
  at_pc : pc;
  lastFrame : Frame;
  delta : bool;
  charVdev : option V
}.

(** [Renderer::update (frame)], the part under the lock. *)
Definition update (frame : Frame) (r : Shared) : Shared :=
  let n := succ (seqNo r) in
  mkShared n (Frame.with_seqNo n frame) (done r).

(** [Renderer::~Renderer ()], the part under the lock. *)
Definition destroy (r : Shared) : Shared :=
  let n := succ (seqNo r) in
  mkShared n (Frame.with_seqNo n (nextFrame r)) true.

(** The predicate handed to [cond.wait]. *)
Definition wait_pred (lastFrame : Frame) (r : Shared) : bool :=
  negb (Frame.seqNo lastFrame =? Frame.seqNo (nextFrame r)).

(** From the return of [cond.wait] to [lk.unlock ()]; [None] is the
    [return] taken when [done] is set. *)
Definition take_frame (lastFrame : Frame) (r : Shared) : option (bool * Frame) :=
  if done r then None
  else Some (succ (Frame.seqNo lastFrame) =? Frame.seqNo (nextFrame r),
             nextFrame r).

(** The loop body after [lk.unlock ()]: the calls made, and the final
    value of [delta] with the engine's state unless an [assert] failed. *)
Definition render (lastFrame : Frame) (delta : bool) (v : V)
  : list call * option (bool * V) :=
  let '(resized, v) :=
    resize (Frame.winPx lastFrame) (Frame.winPy lastFrame) v in
  let delta := if resized then false else delta in
  let '(mCols, mRows) := getMapping v in
  let head :=
    [Resize (Frame.winPx lastFrame) (Frame.winPy lastFrame) resized;
     GetMapping] in
  if negb (mCols =? Frame.nCols lastFrame)
     || negb (mRows =? Frame.nRows lastFrame)
  then (head, None)
  else
    let v := if delta then deltaCopyCells lastFrame v
             else copyCells lastFrame v in
    let v := setDeltaFrame delta v in
    let v := setCursor (Frame.cursor lastFrame) v in
    let v := setSelection (Frame.selection lastFrame) v in
    let v := draw v in
    ((head ++ [if delta then DeltaCopyCells else CopyCells;
              SetDeltaFrame delta; SetCursor; SetSelection;
              Draw; SwapBuffers])%list,
     Some (delta, v)).

(** The renderer and its thread: the guarded members, the thread, the
    collaborator calls made so far, and whether the destructor has not
    been entered yet. *)
Record System := mkSystem {
  shared : Shared;
  thread : Thread;
  calls : list call;
  alive : bool
}.

(** Modelled from the spec: the state right after the constructor has
    started the thread.  The termination flag is lowered (it is raised
    by destruction only), and the stored frame is a default-constructed
    [Frame], as is the local [lastFrame] of the thread. *)
Definition initial : System :=
  mkSystem (mkShared seqNo_init Frame_default false)
           (mkThread Uninitialized Frame_default false None)
           [] true.

(** One step of the render thread; [None] when it cannot move (blocked
    in [cond.wait], or not running any more). *)
Definition thread_step (s : System) : option System :=
  let t := thread s in
  match at_pc t with
  | Uninitialized =>
      Some (mkSystem (shared s)
                     (mkThread Waiting Frame_default false (Some construct))
                     (calls s ++ [InitDisplay])%list (alive s))
  | Waiting =>
      if wait_pred (lastFrame t) (shared s) then
        match take_frame (lastFrame t) (shared s) with
        | None =>
            Some (mkSystem (shared s)
                           (mkThread Terminated (lastFrame t) (delta t) (charVdev t))
                           (calls s) (alive s))
        | Some (d, f) =>
            Some (mkSystem (shared s)
                           (mkThread Rendering f d (charVdev t))
                           (calls s) (alive s))
        end
      else None
  | Rendering =>
      match charVdev t with
      | None => None
      | Some v =>
          match render (lastFrame t) (delta t) v with
          | (cs, Some (d, v')) =>
              Some (mkSystem (shared s)
                             (mkThread Waiting (lastFrame t) d (Some v'))
                             (calls s ++ cs)%list (alive s))
          | (cs, None) =>
              Some (mkSystem (shared s)
                             (mkThread Aborted (lastFrame t) (delta t) (Some v))
                             (calls s ++ cs)%list (alive s))
          end
      end
  | Terminated | Aborted => None
  end.

(** What can happen next: a caller thread runs [update], the owner
    enters the destructor, or the render thread moves. *)
Inductive label :=
| DoUpdate (frame : Frame)
| DoDestroy
| DoThread.

Definition step (l : label) (s : System) : option System :=
  match l with
  | DoUpdate frame =>
      if alive s
      then Some (mkSystem (update frame (shared s)) (thread s) (calls s) true)
      else None
  | DoDestroy =>
      if alive s
      then Some (mkSystem (destroy (shared s)) (thread s) (calls s) false)
      else None
  | DoThread => thread_step s
  end.

(** A schedule is run label by label; a label that cannot fire leaves
    the system as it is. *)
Fixpoint exec (ls : list label) (s : System) : System :=
  match ls with
  | [] => s
  | l :: ls' =>
      match step l s with
      | Some s' => exec ls' s'
      | None => exec ls' s
      end
  end.

Definition is_update (l : label) : bool :=
  match l with
  | DoUpdate _ => true
  | _ => false
  end.

(** The sequence numbers stored by a run of submissions followed by the
    destructor, in order. *)
Fixpoint stored_seqNos (frames : list Frame) (r : Shared) : list Z :=
  match frames with
  | [] => [Frame.seqNo (nextFrame (destroy r))]
  | f :: fs =>
      Frame.seqNo (nextFrame (update f r)) :: stored_seqNos fs (update f r)
  end.

(** Calls of one kind among the calls made so far. *)
Definition is_draw (c : call) : bool :=
  match c with Draw => true | _ => false end.

Definition is_swap (c : call) : bool :=
  match c with SwapBuffers => true | _ => false end.

Definition is_init (c : call) : bool :=
  match c with InitDisplay => true | _ => false end.

Definition count (p : call -> bool) (cs : list call) : nat :=
  List.length (filter p cs).


Fixpoint last_update (ls : list label) : option Frame :=
  match ls with
  | [] => None
  | l :: r =>
      match last_update r, l with
      | Some f, _ => Some f
      | None, DoUpdate f => Some f
      | None, _ => None
      end
  end.

(** A run of submissions with nothing in between. *)
Definition submit (frames : list Frame) (r : Shared) : Shared :=
  fold_left (fun r f => update f r) frames r.



(** [initDisplay] has been called exactly once, before anything else,
    unless the thread has not started yet. *)
Definition initialised_once (s : System) : Prop :=
  (at_pc (thread s) = Uninitialized /\ calls s = [])
  \/ (at_pc (thread s) <> Uninitialized
      /\ exists rest, calls s = InitDisplay :: rest
                      /\ count is_init rest = 0%nat).

(** [fr] is a frame some submission of the schedule handed in, apart
    from the sequence number it was stamped with. *)
Definition submitted (ls : list label) (fr : Frame) : Prop :=
  exists f k, In (DoUpdate f) ls /\ fr = Frame.with_seqNo k f.

(** The slot holds a submitted frame, or else the thread is not in the
    loop body and will not enter it on what the slot holds; inside the
    loop body the thread works on a submitted frame. *)
Definition only_submitted (ls : list label) (s : System) : Prop :=
  (submitted ls (nextFrame (shared s))
   \/ (at_pc (thread s) <> Rendering
       /\ (done (shared s) = true
           \/ Frame.seqNo (lastFrame (thread s))
              = Frame.seqNo (nextFrame (shared s)))
       /\ (at_pc (thread s) = Uninitialized ->
           Frame.seqNo (lastFrame (thread s)) = Frame.seqNo Frame_default)))
  /\ (at_pc (thread s) = Rendering -> submitted ls (lastFrame (thread s))).

(** Whether the thread has called [draw] or [swapBuffers] so far. *)
Definition has_drawn (s : System) : bool :=
  existsb is_draw_or_swap (calls s).

(** What holds as long as no frame has been submitted. *)
Definition quiet (s : System) : Prop :=
  Frame.seqNo (lastFrame (thread s)) = Frame.seqNo Frame_default
  /\ (alive s = true ->
      Frame.seqNo (nextFrame (shared s)) = Frame.seqNo Frame_default
      /\ done (shared s) = false)
  /\ (alive s = false -> done (shared s) = true)
  /\ at_pc (thread s) <> Rendering
  /\ at_pc (thread s) <> Aborted
  /\ has_drawn s = false.

(** *** Sequence numbers *)

Lemma succ_in_range x :
  0 <= x -> x + 1 < seq_modulus -> succ x = x + 1.
Proof. intros H0 H1. unfold succ. apply Z.mod_small. lia. Qed.

(** Every submission, and the destructor, stores the incremented
    counter in the frame slot. *)
Lemma update_bumps_seqNo frame r :
  seqNo (update frame r) = succ (seqNo r)
  /\ Frame.seqNo (nextFrame (update frame r)) = succ (seqNo r).
Proof. split; reflexivity. Qed.

Lemma destroy_bumps_seqNo r :
  seqNo (destroy r) = succ (seqNo r)
  /\ Frame.seqNo (nextFrame (destroy r)) = succ (seqNo r)
  /\ done (destroy r) = true.
Proof. repeat split; reflexivity. Qed.

Lemma stored_seqNos_mod frames :
  forall r,
    stored_seqNos frames r
    = map (fun k => (seqNo r + Z.of_nat k) mod seq_modulus)
          (seq 1 (S (List.length frames))).
Proof.
  induction frames as [|f fs IH]; intros r; [reflexivity|].
  cbn [stored_seqNos List.length]. rewrite IH.
  change (seq 1 (S (S (List.length fs))))
    with (1%nat :: seq 2 (S (List.length fs))).
  cbn [map update seqNo nextFrame Frame.with_seqNo Frame.seqNo].
  f_equal. rewrite <- (seq_shift (S (List.length fs)) 1), map_map.
  apply map_ext. intros k. unfold succ.
  rewrite Zplus_mod_idemp_l. f_equal. lia.
Qed.

(** C2: the sequence numbers stored by a run of submissions followed by
    the destructor are the successors of the counter's value, one after
    the other in the arithmetic of its type, the last one being the
    destructor's; as long as the counter stays within the range of its
    type they are its value plus 1, plus 2, and so on. *)
Theorem stored_seqNos_consecutive :
  forall frames r,
    stored_seqNos frames r
    = map (fun k => (seqNo r + Z.of_nat k) mod seq_modulus)
          (seq 1 (S (List.length frames)))
    /\ (0 <= seqNo r ->
        seqNo r + Z.of_nat (List.length frames) + 1 < seq_modulus ->
        stored_seqNos frames r
        = map (fun k => seqNo r + Z.of_nat k) (seq 1 (S (List.length frames)))).
Proof.
  intros frames r. split; [apply stored_seqNos_mod|].
  intros H0 H1. rewrite stored_seqNos_mod.
  apply map_ext_in. intros k Hk. apply in_seq in Hk.
  apply Z.mod_small. lia.
Qed.

(** *** One pass of the render loop *)

Ltac in_calls := first [ left; reflexivity | right; in_calls ].

Ltac not_in_calls :=
  let C := fresh "C" in
  intros C; repeat (destruct C as [C|C]; try discriminate C); try contradiction.

(** The two halves of a pass, taken apart from the thread: in a pass
    that runs to its end, the cells are written by
    [deltaCopyCells], and the engine is told so, exactly when the
    sequence number taken from the slot is the successor of the one
    rendered before and [resize] reported no change; in every other
    case the cells are written by [copyCells]. *)
Lemma delta_iff_adjacent_and_not_resized :
  forall lastFrame r v d0 f cs d v',
    take_frame lastFrame r = Some (d0, f) ->
    render f d0 v = (cs, Some (d, v')) ->
    let resized := fst (resize (Frame.winPx f) (Frame.winPy f) v) in
    (d = true <->
       succ (Frame.seqNo lastFrame) = Frame.seqNo (nextFrame r)
       /\ resized = false)
    /\ (0 <= Frame.seqNo lastFrame -> Frame.seqNo lastFrame + 1 < seq_modulus ->
        (d = true <->
           Frame.seqNo (nextFrame r) = Frame.seqNo lastFrame + 1
           /\ resized = false))
    /\ (d = true -> In DeltaCopyCells cs /\ ~ In CopyCells cs)
    /\ (d = false -> In CopyCells cs /\ ~ In DeltaCopyCells cs)
    /\ In (SetDeltaFrame d) cs.
Proof.
  intros lastFrame r v d0 f cs d v' T R resized.
  unfold take_frame in T. destruct (done r); [discriminate|].
  injection T as <- <-.
  unfold render in R. subst resized.
  destruct (resize (Frame.winPx (nextFrame r)) (Frame.winPy (nextFrame r)) v)
    as [rz v1].
  destruct (getMapping v1) as [mCols mRows].
  destruct (negb _ || negb _); [discriminate|].
  injection R as <- <- _. cbn [fst].
  assert (A : (if rz then false
               else succ (Frame.seqNo lastFrame) =? Frame.seqNo (nextFrame r))
              = true
              <-> succ (Frame.seqNo lastFrame) = Frame.seqNo (nextFrame r)
                  /\ rz = false).
  { destruct rz.
    - split; [discriminate|intros [_ C]; discriminate].
    - rewrite Z.eqb_eq. tauto. }
  split; [exact A|]. split.
  { intros H0 H1. rewrite A, succ_in_range by lia.
    split; intros [E Z]; split; auto. }
  destruct (if rz then false else _); cbn [In app].
  - split; [intros _; split; [in_calls|not_in_calls]|].
    split; [discriminate|in_calls].
  - split; [discriminate|].
    split; [intros _; split; [in_calls|not_in_calls]|in_calls].
Qed.

(** C1: every pass of the render thread.  The thread leaves
    [cond.wait] on [s], takes the frame of the slot, and later (callers
    may have run [update] or the destructor in between) goes through
    the loop body.  The pass then either stops on an [assert], having
    written no cells, or runs to its end; in that case the engine has
    been driven with [deltaCopyCells] and [setDeltaFrame (true)]
    exactly when the sequence number of the frame taken is the
    successor of the one rendered before and [resize] reported no
    change, and with [copyCells] and [setDeltaFrame (false)] in every
    other case. *)
Theorem render_pass_chooses_delta :
  forall s s1 s1' s2 v,
    at_pc (thread s) = Waiting ->
    charVdev (thread s) = Some v ->
    thread_step s = Some s1 ->
    at_pc (thread s1) = Rendering ->
    thread s1' = thread s1 ->
    calls s1' = calls s1 ->
    thread_step s1' = Some s2 ->
    let last := lastFrame (thread s) in
    let f := nextFrame (shared s) in
    let rz := resize (Frame.winPx f) (Frame.winPy f) v in
    let head := [Resize (Frame.winPx f) (Frame.winPy f) (fst rz); GetMapping] in
    lastFrame (thread s2) = f
    /\ (at_pc (thread s2) = Waiting \/ at_pc (thread s2) = Aborted)
    /\ (at_pc (thread s2) = Waiting ->
        let d := delta (thread s2) in
        (d = true <->
           succ (Frame.seqNo last) = Frame.seqNo f /\ fst rz = false)
        /\ (0 <= Frame.seqNo last -> Frame.seqNo last + 1 < seq_modulus ->
            (d = true <->
               Frame.seqNo f = Frame.seqNo last + 1 /\ fst rz = false))
        /\ calls s2
           = (calls s ++ head
                ++ [if d then DeltaCopyCells else CopyCells;
                    SetDeltaFrame d; SetCursor; SetSelection;
                    Draw; SwapBuffers])%list
        /\ charVdev (thread s2)
           = Some (draw
                     (setSelection (Frame.selection f)
                        (setCursor (Frame.cursor f)
                           (setDeltaFrame d
                              ((if d then deltaCopyCells f else copyCells f)
                                 (snd rz)))))))
    /\ (at_pc (thread s2) = Aborted ->
        getMapping (snd rz) <> (Frame.nCols f, Frame.nRows f)
        /\ calls s2 = (calls s ++ head)%list).
Proof.
  intros s s1 s1' s2 v HW HV S1 R T C S2 last f rz head.
  unfold thread_step in S1. rewrite HW in S1.
  destruct (wait_pred (lastFrame (thread s)) (shared s)); [|discriminate].
  unfold take_frame in S1.
  destruct (done (shared s)); injection S1 as <-; [discriminate R|].
  cbn [thread calls] in T, C. clear R.
  unfold thread_step in S2. rewrite T in S2. cbn [at_pc charVdev] in S2. rewrite HV in S2. cbn [at_pc lastFrame delta] in S2.
  fold last f in S2. unfold render in S2. fold rz in S2.
  subst head. destruct rz as [resized v1] eqn:RZ. cbn [fst snd].
  destruct (getMapping v1) as [mCols mRows] eqn:GM.
  destruct (negb (mCols =? Frame.nCols f) || negb (mRows =? Frame.nRows f))
    eqn:A; injection S2 as <-; cbn [thread at_pc lastFrame delta charVdev calls];
    rewrite C.
  - split; [reflexivity|]. split; [right; reflexivity|].
    split; [discriminate|]. intros _. split; [|reflexivity].
    intros E. injection E as -> ->.
    rewrite !Z.eqb_refl in A. discriminate A.
  - split; [reflexivity|]. split; [left; reflexivity|].
    split; [|discriminate]. intros _.
    assert (D : (if resized then false
                 else succ (Frame.seqNo last) =? Frame.seqNo f) = true
                <-> succ (Frame.seqNo last) = Frame.seqNo f /\ resized = false).
    { destruct resized.
      - split; [discriminate|intros [_ X]; discriminate].
      - rewrite Z.eqb_eq. tauto. }
    split; [exact D|]. split.
    { intros H0 H1. rewrite D, succ_in_range by lia.
      split; intros [X Y]; split; auto. }
    split.
    + reflexivity.
    + destruct (if resized then false
                else succ (Frame.seqNo last) =? Frame.seqNo f); reflexivity.
Qed.

(** *** Before the first submission *)

Lemma quiet_initial : quiet initial.
Proof. unfold quiet. cbn. repeat split; intros; try discriminate; auto. Qed.

Lemma quiet_blocks s :
  quiet s -> alive s = true -> at_pc (thread s) = Waiting ->
  thread_step s = None.
Proof.
  intros (L & A & _) Al W. destruct (A Al) as [N _].
  unfold thread_step. rewrite W. unfold wait_pred.
  rewrite L, N, Z.eqb_refl. reflexivity.
Qed.

Ltac quiet_tac :=
  repeat split; intros; try discriminate; try tauto; auto.

Lemma quiet_step l s s' :
  is_update l = false -> quiet s -> step l s = Some s' -> quiet s'.
Proof.
  intros U Q H. destruct l as [frame| |]; [discriminate| |]; cbn [step] in H.
  - destruct Q as (L & A & D & P1 & P2 & C).
    destruct (alive s) eqn:Al; [|discriminate]. injection H as <-.
    unfold quiet. cbn. quiet_tac.
  - pose proof Q as (L & A & D & P1 & P2 & C).
    unfold thread_step in H.
    destruct (at_pc (thread s)) eqn:PC; try discriminate; try congruence.
    + injection H as <-. unfold quiet, has_drawn in *. cbn.
      rewrite existsb_app, C. cbn. quiet_tac.
    + destruct (wait_pred (lastFrame (thread s)) (shared s)) eqn:W;
        [|discriminate].
      unfold take_frame in H.
      destruct (done (shared s)) eqn:Dn.
      * injection H as <-. unfold quiet, has_drawn in *. cbn.
        quiet_tac.
      * exfalso. destruct (alive s) eqn:Al.
        -- destruct (A eq_refl) as [N _]. unfold wait_pred in W.
           rewrite L, N, Z.eqb_refl in W. discriminate.
        -- specialize (D eq_refl). congruence.
Qed.

Lemma quiet_exec ls :
  forallb (fun l => negb (is_update l)) ls = true ->
  forall s, quiet s -> quiet (exec ls s).
Proof.
  induction ls as [|l ls IH]; intros H s Q; [exact Q|].
  cbn [forallb] in H. apply andb_true_iff in H. destruct H as [U H].
  apply negb_true_iff in U. cbn [exec].
  destruct (step l s) as [s'|] eqn:E; [|apply IH; assumption].
  apply IH; [assumption|]. eapply quiet_step; eauto.
Qed.

(** C10: whatever the schedule, as long as it holds no submission the
    render thread makes no [draw] and no [swapBuffers] call and is
    never inside the loop body; after its one-time initialisation it
    cannot leave [cond.wait] until the destructor has bumped the
    sequence number, and it then returns without drawing. *)
Theorem no_draw_before_first_update :
  forall ls,
    forallb (fun l => negb (is_update l)) ls = true ->
    let s := exec ls initial in
    has_drawn s = false
    /\ at_pc (thread s) <> Rendering
    /\ (alive s = true -> at_pc (thread s) = Waiting -> thread_step s = None)
    /\ (forall s', thread_step s = Some s' ->
        has_drawn s' = false /\ at_pc (thread s') <> Rendering).
Proof.
  intros ls H s.
  assert (Q : quiet s) by (apply quiet_exec; [exact H|apply quiet_initial]).
  pose proof Q as (L & A & D & P1 & P2 & C).
  repeat split; auto.
  - intros Al W. apply quiet_blocks; assumption.
  - assert (Q' : quiet s') by (apply (quiet_step DoThread s s'); auto).
    apply Q'.
  - assert (Q' : quiet s') by (apply (quiet_step DoThread s s'); auto).
    apply Q'.
Qed.


(** *** Schedules with submissions *)

Lemma thread_step_shared s s' :
  thread_step s = Some s' -> shared s' = shared s /\ alive s' = alive s.
Proof.
  unfold thread_step. intros H.
  destruct (at_pc (thread s)); try discriminate.
  - injection H as <-. split; reflexivity.
  - destruct (wait_pred _ _); [|discriminate].
    destruct (take_frame _ _) as [[d f]|]; injection H as <-; split; reflexivity.
  - destruct (charVdev (thread s)) as [v|]; [|discriminate].
    destruct (render _ _ v) as [cs [[d v']|]]; injection H as <-;
      split; reflexivity.
Qed.

Lemma alive_false_exec ls :
  forall s, alive s = false -> alive (exec ls s) = false.
Proof.
  induction ls as [|l ls IH]; intros s H; [exact H|].
  cbn [exec]. destruct (step l s) as [s'|] eqn:E; [|apply IH, H].
  apply IH. destruct l; cbn [step] in E.
  - rewrite H in E. discriminate.
  - rewrite H in E. discriminate.
  - apply thread_step_shared in E. destruct E as [_ E]. congruence.
Qed.

Lemma shared_kept_without_update ls :
  forall s,
    last_update ls = None -> alive (exec ls s) = true ->
    shared (exec ls s) = shared s.
Proof.
  induction ls as [|l ls IH]; intros s N A; [reflexivity|].
  cbn [last_update] in N. destruct (last_update ls) eqn:L; [discriminate|].
  cbn [exec] in *. destruct (step l s) as [s'|] eqn:E; [|apply IH; auto].
  rewrite (IH s' eq_refl A). destruct l; [discriminate| |].
  - cbn [step] in E. destruct (alive s); [|discriminate]. injection E as <-.
    rewrite alive_false_exec in A by reflexivity. discriminate.
  - apply thread_step_shared in E. apply E.
Qed.

(** X1: whatever the interleaving, as long as the destructor has not
    been entered the frame slot holds the frame of the last submission,
    stamped with the current value of the counter: earlier submissions
    that were not taken in time are gone. *)
Theorem slot_holds_last_submission :
  forall ls s f,
    alive (exec ls s) = true ->
    last_update ls = Some f ->
    nextFrame (shared (exec ls s))
    = Frame.with_seqNo (seqNo (shared (exec ls s))) f.
Proof.
  induction ls as [|l ls IH]; intros s f A L; [discriminate|].
  cbn [last_update] in L. cbn [exec] in *.
  destruct (last_update ls) as [f'|] eqn:L'.
  - injection L as <-.
    destruct (step l s) as [s'|]; apply IH; auto.
  - destruct l as [frame| |]; try discriminate. injection L as <-.
    cbn [step] in *. destruct (alive s) eqn:Al.
    + rewrite (shared_kept_without_update ls _ L' A). reflexivity.
    + rewrite alive_false_exec in A by exact Al. discriminate.
Qed.

Lemma submit_snoc frames f r :
  submit (frames ++ [f]) r = update f (submit frames r).
Proof. unfold submit. rewrite fold_left_app. reflexivity. Qed.

Lemma submit_seqNo frames :
  forall r,
    0 <= seqNo r ->
    seqNo r + Z.of_nat (List.length frames) < seq_modulus ->
    seqNo (submit frames r) = seqNo r + Z.of_nat (List.length frames)
    /\ done (submit frames r) = done r
    /\ (frames <> [] ->
        Frame.seqNo (nextFrame (submit frames r)) = seqNo (submit frames r)).
Proof.
  induction frames as [|f fs IH] using rev_ind; intros r H0 H1.
  - cbn. split; [lia|]. split; [reflexivity|congruence].
  - rewrite submit_snoc. rewrite length_app in *. cbn [List.length] in *.
    destruct (IH r H0 ltac:(lia)) as (E & D & _).
    cbn [update seqNo done nextFrame Frame.with_seqNo Frame.seqNo].
    rewrite E, succ_in_range by lia.
    split; [lia|]. split; [exact D|reflexivity].
Qed.

(** X2: when the thread has caught up with the counter and [n] frames
    are submitted before it runs again, it is woken exactly when
    [n > 0], and the pass it then starts is a candidate for delta
    rendering exactly when [n = 1]: a skipped submission forces a full
    redraw (the counter staying within the range of its type). *)
Theorem delta_after_submissions :
  forall frames r last,
    Frame.seqNo last = seqNo r ->
    Frame.seqNo (nextFrame r) = seqNo r ->
    done r = false ->
    0 <= seqNo r ->
    seqNo r + Z.of_nat (List.length frames) < seq_modulus ->
    wait_pred last (submit frames r) = negb (List.length frames =? 0)%nat
    /\ (frames <> [] ->
        take_frame last (submit frames r)
        = Some ((List.length frames =? 1)%nat, nextFrame (submit frames r))).
Proof.
  intros frames r last HL HN HD H0 H1.
  destruct (submit_seqNo frames r H0 H1) as (E & D & F).
  destruct frames as [|f fs].
  - split; [|congruence]. unfold wait_pred. cbn. rewrite HL, HN, Z.eqb_refl.
    reflexivity.
  - assert (NE : f :: fs <> []) by discriminate.
    specialize (F NE). cbn [List.length] in *.
    split.
    + intros. unfold wait_pred. rewrite F, E, HL.
      cbn [Nat.eqb negb]. apply negb_true_iff, Z.eqb_neq. lia.
    + intros _. unfold take_frame. rewrite D, HD, F, E, HL.
      rewrite succ_in_range by lia. f_equal. f_equal.
      destruct fs as [|f' fs']; cbn [List.length Nat.eqb].
      * apply Z.eqb_eq. lia.
      * apply Z.eqb_neq. lia.
Qed.

(** *** Draws against submissions *)

Lemma count_app p a b : count p (a ++ b) = (count p a + count p b)%nat.
Proof. unfold count. rewrite filter_app, length_app. reflexivity. Qed.

(** A pass that runs to its end draws once and swaps once; a pass
    stopped by an [assert] does neither.  No pass calls [initDisplay]. *)
Lemma render_counts f d v :
  let r := render f d v in
  count is_draw (fst r) = match snd r with Some _ => 1%nat | None => 0%nat end
  /\ count is_swap (fst r) = match snd r with Some _ => 1%nat | None => 0%nat end
  /\ count is_init (fst r) = 0%nat.
Proof.
  unfold render.
  destruct (resize (Frame.winPx f) (Frame.winPy f) v) as [rz v1].
  destruct (getMapping v1) as [mCols mRows].
  destruct (negb _ || negb _); cbn [fst snd].
  - repeat split.
  - destruct (if rz then false else d); repeat split.
Qed.






(** *** Shutdown *)


(** X5: the sequence bump of the destructor gets a waiting thread out
    of [cond.wait], and the thread then returns without a further call,
    exactly when the number it rendered last is not already the
    successor of the counter; in particular when it has caught up with
    the counter (of a type with more than one value). *)
Theorem destroy_wakes_waiting_thread :
  forall s,
    alive s = true ->
    at_pc (thread s) = Waiting ->
    let s' := exec [DoDestroy; DoThread] s in
    calls s' = calls s
    /\ (at_pc (thread s') = Terminated <->
        Frame.seqNo (lastFrame (thread s)) <> succ (seqNo (shared s)))
    /\ (Frame.seqNo (lastFrame (thread s)) = seqNo (shared s) ->
        0 <= seqNo (shared s) < seq_modulus -> 1 < seq_modulus ->
        at_pc (thread s') = Terminated).
Proof.
  intros s A W s'. subst s'. cbn [exec step]. rewrite A.
  unfold thread_step. cbn [thread shared at_pc]. rewrite W.
  unfold wait_pred, take_frame.
  cbn [destroy nextFrame done Frame.with_seqNo Frame.seqNo].
  assert (X : forall q, 0 <= q < seq_modulus -> 1 < seq_modulus -> q <> succ q).
  { intros q Hq HM C. unfold succ in C.
    destruct (Z.eq_dec (q + 1) seq_modulus) as [Q|Q].
    - rewrite Q, Z.mod_same in C by lia. lia.
    - rewrite Z.mod_small in C by lia. lia. }
  destruct (Frame.seqNo (lastFrame (thread s)) =? succ (seqNo (shared s)))
    eqn:E; cbn [negb exec calls thread at_pc].
  - apply Z.eqb_eq in E. split; [reflexivity|]. split.
    + rewrite W. split; [discriminate|congruence].
    + intros L Hq HM. exfalso. apply (X (seqNo (shared s)) Hq HM). congruence.
  - apply Z.eqb_neq in E. split; [reflexivity|]. split.
    + split; auto.
    + reflexivity.
Qed.

(** *** Start-up *)

Lemma initialised_once_step l s s' :
  initialised_once s -> step l s = Some s' -> initialised_once s'.
Proof.
  intros I H. destruct l as [frame| |]; cbn [step] in H.
  - destruct (alive s); [|discriminate]. injection H as <-. exact I.
  - destruct (alive s); [|discriminate]. injection H as <-. exact I.
  - unfold thread_step in H. unfold initialised_once in *.
    destruct (at_pc (thread s)) eqn:PC; try discriminate.
    + injection H as <-. cbn [calls thread at_pc].
      destruct I as [[_ C]|[N _]]; [|congruence].
      right. split; [discriminate|]. rewrite C. exists []. split; reflexivity.
    + destruct I as [[C _]|[_ (rest & C & Z)]]; [discriminate|].
      destruct (wait_pred _ _); [|discriminate].
      destruct (take_frame _ _) as [[d f]|]; injection H as <-;
        cbn [calls thread at_pc]; right; (split; [discriminate|eauto]).
    + destruct I as [[C _]|[_ (rest & C & Z)]]; [discriminate|].
      destruct (charVdev (thread s)) as [v|]; [|discriminate].
      pose proof (render_counts (lastFrame (thread s)) (delta (thread s)) v)
        as (_ & _ & R).
      destruct (render (lastFrame (thread s)) (delta (thread s)) v)
        as [cs o]; cbn [fst] in R.
      assert (G : exists rest', (calls s ++ cs)%list = InitDisplay :: rest'
                                /\ count is_init rest' = 0%nat).
      { exists (rest ++ cs)%list. rewrite C, count_app, Z, R.
        split; reflexivity. }
      destruct o as [[d v']|]; injection H as <-; cbn [calls thread at_pc];
        right; (split; [discriminate|exact G]).
Qed.

(** X6: whatever the schedule, [initDisplay] is the first call the
    thread makes and it is made once: no other collaborator is called
    before it, and the calls after it hold no second one. *)
Theorem initDisplay_once_and_first :
  forall ls,
    let s := exec ls initial in
    (at_pc (thread s) = Uninitialized /\ calls s = [])
    \/ (at_pc (thread s) <> Uninitialized
        /\ exists rest, calls s = InitDisplay :: rest
                        /\ count is_init rest = 0%nat).
Proof.
  intros ls s. subst s.
  assert (G : forall s, initialised_once s -> initialised_once (exec ls s)).
  { induction ls as [|l ls IH]; intros s I; [exact I|].
    cbn [exec]. destruct (step l s) as [s'|] eqn:E; [|apply IH, I].
    apply IH. eapply initialised_once_step; eauto. }
  apply G. left. split; reflexivity.
Qed.

(** *** What is rendered *)

Lemma submitted_more ls l fr : submitted ls fr -> submitted (ls ++ [l]) fr.
Proof.
  intros (f & k & I & E). exists f, k. split; [|exact E].
  apply in_or_app. left. exact I.
Qed.

Lemma only_submitted_more ls l s :
  only_submitted ls s -> only_submitted (ls ++ [l]) s.
Proof.
  intros [[A|A] B]; (split; [|intros R; apply submitted_more, B, R]).
  - left. apply submitted_more, A.
  - right. exact A.
Qed.

Lemma only_submitted_step ls l s s' :
  only_submitted ls s -> step l s = Some s' -> only_submitted (ls ++ [l]) s'.
Proof.
  intros [A B] H. destruct l as [frame| |]; cbn [step] in H.
  - destruct (alive s); [|discriminate]. injection H as <-.
    unfold only_submitted. cbn [shared thread update nextFrame].
    split; [|intros R; apply submitted_more, B, R].
    left. exists frame, (succ (seqNo (shared s))).
    split; [|reflexivity]. apply in_or_app. right. left. reflexivity.
  - destruct (alive s); [|discriminate]. injection H as <-.
    unfold only_submitted. cbn [shared thread destroy nextFrame done].
    split; [|intros R; apply submitted_more, B, R].
    destruct A as [(f & k & I & E)|(R & _ & U)].
    + left. exists f, (succ (seqNo (shared s))). split.
      * apply in_or_app. left. exact I.
      * rewrite E. reflexivity.
    + right. auto.
  - unfold thread_step in H.
    destruct (at_pc (thread s)) eqn:PC; try discriminate.
    + injection H as <-. unfold only_submitted.
      cbn [shared thread at_pc lastFrame]. split; [|discriminate].
      destruct A as [A|(_ & S & U)]; [left; apply submitted_more, A|].
      right. split; [discriminate|]. split; [|reflexivity].
      destruct S as [S|S]; [left; exact S|right].
      rewrite <- S. symmetry. apply U. reflexivity.
    + destruct (wait_pred (lastFrame (thread s)) (shared s)) eqn:W;
        [|discriminate].
      unfold take_frame in H. destruct (done (shared s)) eqn:D.
      * injection H as <-. unfold only_submitted.
        cbn [shared thread at_pc lastFrame]. split; [|discriminate].
        destruct A as [A|(_ & S & U)]; [left; apply submitted_more, A|].
        right. rewrite D. split; [discriminate|]. split; [auto|discriminate].
      * injection H as <-. unfold only_submitted.
        cbn [shared thread at_pc lastFrame].
        assert (X : submitted ls (nextFrame (shared s))).
        { destruct A as [A|(_ & [S|S] & _)]; [exact A|discriminate|].
          unfold wait_pred in W. rewrite S, Z.eqb_refl in W. discriminate. }
        split; [left|intros _]; apply submitted_more, X.
    + specialize (B eq_refl).
      assert (X : submitted ls (nextFrame (shared s))).
      { destruct A as [A|(R & _)]; [exact A|congruence]. }
      destruct (charVdev (thread s)) as [v|]; [|discriminate].
      destruct (render (lastFrame (thread s)) (delta (thread s)) v)
        as [cs [[d v']|]]; injection H as <-; unfold only_submitted;
        cbn [shared thread at_pc lastFrame];
        (split; [left; apply submitted_more, X|discriminate]).
Qed.

Lemma only_submitted_exec ls :
  forall seen s,
    only_submitted seen s -> only_submitted (seen ++ ls) (exec ls s).
Proof.
  induction ls as [|l ls IH]; intros seen s O.
  - rewrite app_nil_r. exact O.
  - change (l :: ls) with ([l] ++ ls)%list. rewrite app_assoc.
    cbn [exec app]. destruct (step l s) as [s'|] eqn:E; apply IH.
    + eapply only_submitted_step; eauto.
    + apply only_submitted_more, O.
Qed.

(** X14: whatever the schedule, a pass of the render loop works on a
    frame that was submitted (stamped with a sequence number): the
    thread never renders the default-constructed frame it starts with,
    and never the slot as the destructor leaves it. *)
Theorem renders_submitted_frames_only :
  forall ls,
    let s := exec ls initial in
    at_pc (thread s) = Rendering ->
    exists f k, In (DoUpdate f) ls
                /\ lastFrame (thread s) = Frame.with_seqNo k f.
Proof.
  intros ls s R.
  assert (O : only_submitted ([] ++ ls) s).
  { apply only_submitted_exec. unfold only_submitted. cbn.
    split; [|discriminate]. right. split; [discriminate|]. auto. }
  destruct O as [_ B]. apply (B R).
Qed.

End Model.

(** Three submissions' worth of sequence numbers on a 64-bit counter:
    two calls of [update], then the destructor. *)
Lemma stored_seqNos_consecutive_witness :
  let r := mkShared unit unit unit 0 (Examples.frame_80x24 0) false in
  (0 <= seqNo unit unit unit r
   /\ seqNo unit unit unit r + 2 + 1 < 2 ^ 64)
  /\ stored_seqNos unit unit unit (2 ^ 64)
       [Examples.frame_80x24 0; Examples.frame_80x24 0] r
     = [1; 2; 3].
Proof.
  split; [cbn; lia|].
  apply (proj2 (stored_seqNos_consecutive unit unit unit (2 ^ 64)
                  [Examples.frame_80x24 0; Examples.frame_80x24 0]
                  (mkShared unit unit unit 0 (Examples.frame_80x24 0) false)));
    cbn; lia.
Defined.

(** A pass over frame 1 after frame 0, the window keeping its size,
    writes the changed cells only. *)
Lemma delta_iff_adjacent_and_not_resized_witness :
  let r := mkShared unit unit unit 1 (Examples.frame_80x24 1) false in
  let cs := [Resize 80 24 false; GetMapping; DeltaCopyCells;
             SetDeltaFrame true; SetCursor; SetSelection;
             Draw; SwapBuffers] in
  take_frame unit unit unit (2 ^ 64) (Examples.frame_80x24 0) r
  = Some (true, Examples.frame_80x24 1)
  /\ render unit unit unit (ops := Examples.vdev_ops)
            (Examples.frame_80x24 1) true (80, 24)
     = (cs, Some (true, (80, 24)))
  /\ In DeltaCopyCells cs /\ ~ In CopyCells cs.
Proof.
  split; [reflexivity|]. split; [reflexivity|].
  apply (delta_iff_adjacent_and_not_resized unit unit unit
           (ops := Examples.vdev_ops) (2 ^ 64)
           (Examples.frame_80x24 0)
           (mkShared unit unit unit 1 (Examples.frame_80x24 1) false)
           (80, 24) true (Examples.frame_80x24 1) _ true (80, 24)
           eq_refl eq_refl).
  reflexivity.
Defined.

(** The thread starts, finds nothing to draw, the owner destroys the
    renderer, and the thread returns: nothing was drawn. *)
Lemma no_draw_before_first_update_witness :
  let ls := [DoThread unit unit unit; DoThread unit unit unit;
             DoDestroy unit unit unit; DoThread unit unit unit] in
  let s := exec unit unit unit (ops := Examples.vdev_ops) (2 ^ 64)
                (Examples.frame_80x24 0) ls
                (initial unit unit unit (Examples.frame_80x24 0) 0) in
  forallb (fun l => negb (is_update unit unit unit l)) ls = true
  /\ has_drawn unit unit unit s = false
  /\ at_pc unit unit unit (thread unit unit unit s) = Terminated.
Proof.
  split; [reflexivity|]. split; [|reflexivity].
  exact (proj1 (no_draw_before_first_update unit unit unit
                  (ops := Examples.vdev_ops) (2 ^ 64)
                  (Examples.frame_80x24 0) 0
                  [DoThread unit unit unit; DoThread unit unit unit;
                   DoDestroy unit unit unit; DoThread unit unit unit]
                  eq_refl)).
Defined.

(** The second pass of a thread that has rendered frame 1 and finds
    frame 2 in the slot, the window keeping its size: the changed
    cells only are written.  A third frame is submitted while the
    pass is under way. *)
Lemma render_pass_chooses_delta_witness :
  let run := exec unit unit unit (ops := Examples.vdev_ops) (2 ^ 64)
                  (Examples.frame_80x24 0) in
  let s := run [DoThread unit unit unit;
                DoUpdate unit unit unit (Examples.frame_80x24 0);
                DoThread unit unit unit; DoThread unit unit unit;
                DoUpdate unit unit unit (Examples.frame_80x24 0)]
               (initial unit unit unit (Examples.frame_80x24 0) 0) in
  let s1 := run [DoThread unit unit unit] s in
  let s1' := run [DoUpdate unit unit unit (Examples.frame_80x24 0)] s1 in
  let s2 := run [DoThread unit unit unit] s1' in
  (at_pc unit unit unit (thread unit unit unit s) = Waiting
   /\ charVdev unit unit unit (thread unit unit unit s) = Some (80, 24)
   /\ at_pc unit unit unit (thread unit unit unit s1) = Rendering
   /\ at_pc unit unit unit (thread unit unit unit s2) = Waiting)
  /\ delta unit unit unit (thread unit unit unit s2) = true
  /\ calls unit unit unit s2
     = (calls unit unit unit s
          ++ [Resize 80 24 false; GetMapping; DeltaCopyCells;
              SetDeltaFrame true; SetCursor; SetSelection;
              Draw; SwapBuffers])%list.
Proof.
  cbv zeta. split; [repeat split|].
  set (run := exec unit unit unit (ops := Examples.vdev_ops) (2 ^ 64)
                   (Examples.frame_80x24 0)).
  set (s := run [DoThread unit unit unit;
                 DoUpdate unit unit unit (Examples.frame_80x24 0);
                 DoThread unit unit unit; DoThread unit unit unit;
                 DoUpdate unit unit unit (Examples.frame_80x24 0)]
                (initial unit unit unit (Examples.frame_80x24 0) 0)).
  destruct (render_pass_chooses_delta unit unit unit
              (ops := Examples.vdev_ops) (2 ^ 64) (Examples.frame_80x24 0)
              s (run [DoThread unit unit unit] s)
              (run [DoUpdate unit unit unit (Examples.frame_80x24 0)]
                   (run [DoThread unit unit unit] s))
              (run [DoThread unit unit unit]
                   (run [DoUpdate unit unit unit (Examples.frame_80x24 0)]
                        (run [DoThread unit unit unit] s)))
              (80, 24)
              eq_refl eq_refl eq_refl eq_refl eq_refl eq_refl eq_refl)
    as (_ & _ & P & _).
  destruct (P eq_refl) as (D & _ & C & _).
  split.
  - apply D. split; reflexivity.
  - exact C.
Defined.

(** Two submissions with a thread step in between: the slot holds the
    second frame. *)
Lemma slot_holds_last_submission_witness :
  let ls := [DoUpdate unit unit unit (Examples.frame_80x24 7);
             DoThread unit unit unit;
             DoUpdate unit unit unit (Frame.mk 0 100 50 100 50 tt tt tt)] in
  let s := exec unit unit unit (ops := Examples.vdev_ops) (2 ^ 64)
                (Examples.frame_80x24 0) ls
                (initial unit unit unit (Examples.frame_80x24 0) 0) in
  alive unit unit unit s = true
  /\ last_update unit unit unit ls = Some (Frame.mk 0 100 50 100 50 tt tt tt)
  /\ nextFrame unit unit unit (shared unit unit unit s)
     = Frame.mk 2 100 50 100 50 tt tt tt.
Proof.
  split; [reflexivity|]. split; [reflexivity|].
  exact (slot_holds_last_submission unit unit unit
           (ops := Examples.vdev_ops) (2 ^ 64) (Examples.frame_80x24 0)
           [DoUpdate unit unit unit (Examples.frame_80x24 7);
            DoThread unit unit unit;
            DoUpdate unit unit unit (Frame.mk 0 100 50 100 50 tt tt tt)]
           (initial unit unit unit (Examples.frame_80x24 0) 0)
           (Frame.mk 0 100 50 100 50 tt tt tt) eq_refl eq_refl).
Defined.

(** Two submissions after frame 5 was rendered: the thread is woken
    and the pass is not a delta pass. *)
Lemma delta_after_submissions_witness :
  let r := mkShared unit unit unit 5 (Examples.frame_80x24 5) false in
  let frames := [Examples.frame_80x24 0; Examples.frame_80x24 0] in
  (0 <= 5 /\ 5 + 2 < 2 ^ 64)
  /\ wait_pred unit unit unit (Examples.frame_80x24 5)
       (submit unit unit unit (2 ^ 64) frames r) = true
  /\ take_frame unit unit unit (2 ^ 64) (Examples.frame_80x24 5)
       (submit unit unit unit (2 ^ 64) frames r)
     = Some (false, Examples.frame_80x24 7).
Proof.
  split; [lia|].
  pose proof (delta_after_submissions unit unit unit (2 ^ 64)
                [Examples.frame_80x24 0; Examples.frame_80x24 0]
                (mkShared unit unit unit 5 (Examples.frame_80x24 5) false)
                (Examples.frame_80x24 5)
                eq_refl eq_refl eq_refl ltac:(cbn; lia) ltac:(cbn; lia))
    as [W T].
  split; [exact W|]. apply T. discriminate.
Defined.


(** A thread waiting for its first frame returns when the renderer is
    destroyed. *)
Lemma destroy_wakes_waiting_thread_witness :
  let s := exec unit unit unit (ops := Examples.vdev_ops) (2 ^ 64)
                (Examples.frame_80x24 0) [DoThread unit unit unit]
                (initial unit unit unit (Examples.frame_80x24 0) 0) in
  (alive unit unit unit s = true
   /\ at_pc unit unit unit (thread unit unit unit s) = Waiting)
  /\ at_pc unit unit unit
       (thread unit unit unit
          (exec unit unit unit (ops := Examples.vdev_ops) (2 ^ 64)
                (Examples.frame_80x24 0)
                [DoDestroy unit unit unit; DoThread unit unit unit] s))
     = Terminated.
Proof.
  split; [split; reflexivity|].
  apply (destroy_wakes_waiting_thread unit unit unit
           (ops := Examples.vdev_ops) (2 ^ 64) (Examples.frame_80x24 0)
           (exec unit unit unit (ops := Examples.vdev_ops) (2 ^ 64)
                 (Examples.frame_80x24 0) [DoThread unit unit unit]
                 (initial unit unit unit (Examples.frame_80x24 0) 0))
           eq_refl eq_refl);
    [reflexivity|cbn; lia|lia].
Defined.

(** After one submission and two thread steps the thread is inside the
    loop body, working on the submitted frame. *)
Lemma renders_submitted_frames_only_witness :
  let ls := [DoThread unit unit unit;
             DoUpdate unit unit unit (Examples.frame_80x24 7);
             DoThread unit unit unit] in
  let s := exec unit unit unit (ops := Examples.vdev_ops) (2 ^ 64)
                (Examples.frame_80x24 0) ls
                (initial unit unit unit (Examples.frame_80x24 0) 0) in
  at_pc unit unit unit (thread unit unit unit s) = Rendering
  /\ exists f k, In (DoUpdate unit unit unit f) ls
                 /\ lastFrame unit unit unit (thread unit unit unit s)
                    = Frame.with_seqNo k f.
Proof.
  split; [reflexivity|].
  exact (renders_submitted_frames_only unit unit unit
           (ops := Examples.vdev_ops) (2 ^ 64) (Examples.frame_80x24 0) 0
           [DoThread unit unit unit;
            DoUpdate unit unit unit (Examples.frame_80x24 7);
            DoThread unit unit unit] eq_refl).
Defined.

End Renderer.

(* ================================================================== *)
(** ** Facts about the string routines *)
(* ================================================================== *)

Section CStrFacts.
Import CStr.

Lemma tolower_nul c : tolower c = zero -> c = zero.
Proof.
  destruct c as [[] [] [] [] [] [] [] []]; vm_compute; congruence.
Qed.

Lemma tolower_dot c : tolower c = "."%char -> c = "."%char.
Proof.
  destruct c as [[] [] [] [] [] [] [] []]; vm_compute; congruence.
Qed.

Lemma uchar_inj a b : uchar a = uchar b -> a = b.
Proof.
  unfold uchar. intros H. apply N2Z.inj in H.
  rewrite <- (ascii_N_embedding a), <- (ascii_N_embedding b). congruence.
Qed.

Lemma uchar_nul c : uchar c = 0 -> c = zero.
Proof. intros H. apply uchar_inj. exact H. Qed.

Lemma length_take n s :
  (n <= String.length s)%nat -> String.length (take n s) = n.
Proof.
  revert s. induction n as [|n IH]; intros [|c r] H; cbn in *; try lia.
  rewrite IH; lia.
Qed.

Lemma take_from n s : (take n s ++ from s n)%string = s.
Proof.
  revert s. induction n as [|n IH]; intros [|c r]; cbn; try reflexivity.
  rewrite IH. reflexivity.
Qed.

Lemma from_app j p t :
  (j <= String.length p)%nat -> from (p ++ t) j = (from p j ++ t)%string.
Proof.
  revert p. induction j as [|j IH]; intros p H; [reflexivity|].
  destruct p as [|c r]; cbn in *; [lia|]. apply IH. lia.
Qed.

Lemma take_snoc q s :
  (q < String.length s)%nat ->
  take (S q) s = (take q s ++ String (at_ s q) "")%string.
Proof.
  revert s. induction q as [|q IH]; intros [|c r] H; cbn in *; try lia.
  - destruct r; reflexivity.
  - rewrite <- IH by lia. reflexivity.
Qed.

Lemma nul_free_from s n : nul_free s = true -> nul_free (from s n) = true.
Proof.
  revert s. induction n as [|n IH]; intros [|c r] H; cbn in *; auto.
  apply andb_true_iff in H. apply IH, H.
Qed.

Lemma nul_free_take s n : nul_free s = true -> nul_free (take n s) = true.
Proof.
  revert s. induction n as [|n IH]; intros [|c r] H; cbn in *; auto.
  apply andb_true_iff in H. destruct H as [H1 H2].
  rewrite H1. cbn. apply IH, H2.
Qed.

(** Where [strrchr] points. *)
Lemma strrchr_Some s c i :
  strrchr s c = Some i ->
  (i < String.length s)%nat /\ at_ s i = c /\ strrchr (from s (S i)) c = None.
Proof.
  revert i. induction s as [|a r IH]; intros i H; cbn in H; [discriminate|].
  destruct (strrchr r c) as [j|] eqn:E.
  - injection H as <-. destruct (IH j eq_refl) as (L & A & N).
    cbn. repeat split; [lia|exact A|exact N].
  - destruct (Ascii.eqb_spec a c) as [->|]; [|discriminate].
    injection H as <-. cbn. repeat split; [lia|exact E].
Qed.

Lemma strrchr_take s c i :
  strrchr s c = Some i ->
  strrchr (take (S i) s) c = Some i.
Proof.
  revert i. induction s as [|a r IH]; intros i H; cbn in H; [discriminate|].
  destruct (strrchr r c) as [j|] eqn:E.
  - injection H as <-.
    change (strrchr (take (S (S j)) (String a r)) c)
      with (match strrchr (take (S j) r) c with
            | Some i => Some (S i)
            | None => if Ascii.eqb a c then Some O else None
            end).
    rewrite (IH j eq_refl). reflexivity.
  - destruct (Ascii.eqb_spec a c) as [->|]; [|discriminate].
    injection H as <-. cbn. rewrite Ascii.eqb_refl. reflexivity.
Qed.

Lemma strrchr_snoc p c d :
  strrchr (p ++ String c "") d
  = if Ascii.eqb c d then Some (String.length p) else strrchr p d.
Proof.
  induction p as [|a r IH]; cbn; [reflexivity|].
  rewrite IH. destruct (Ascii.eqb c d); [reflexivity|].
  destruct (strrchr r d); reflexivity.
Qed.

(** Two C strings compare equal without regard to case exactly when
    they are the same after case folding. *)
Lemma strcasecmp_0 a b :
  nul_free a = true -> nul_free b = true ->
  (strcasecmp a b =? 0) = String.eqb (Documented.lower a) (Documented.lower b).
Proof.
  revert b. induction a as [|x a IH]; intros [|y b] Ha Hb; cbn in *.
  - reflexivity.
  - apply andb_true_iff in Hb. destruct Hb as [Hy _].
    destruct (uchar (tolower y) =? 0) eqn:E; [|destruct (uchar (tolower y)); auto].
    apply Z.eqb_eq in E. apply uchar_nul, tolower_nul in E. subst y.
    discriminate Hy.
  - apply andb_true_iff in Ha. destruct Ha as [Hx _].
    rewrite Z.sub_0_r.
    destruct (uchar (tolower x) =? 0) eqn:E; [|reflexivity].
    apply Z.eqb_eq in E. apply uchar_nul, tolower_nul in E. subst x.
    discriminate Hx.
  - apply andb_true_iff in Ha. apply andb_true_iff in Hb.
    destruct Ha as [_ Ha]. destruct Hb as [_ Hb].
    destruct (Ascii.eqb_spec (tolower x) (tolower y)) as [E|E].
    + apply IH; assumption.
    + apply Z.eqb_neq. intros C. apply E, uchar_inj. lia.
Qed.

Lemma length_lower s :
  String.length (Documented.lower s) = String.length s.
Proof. induction s as [|c r IH]; cbn; congruence. Qed.

(** Comparing the first [strlen m] characters of a buffer that starts
    with [m] against a word [w]: [m] has to be, up to case, the
    beginning of [w] of that length. *)
Lemma strncasecmp_prefix m rest w :
  nul_free m = true ->
  (strncasecmp (m ++ rest) w (strlen m) =? 0)
  = String.eqb (Documented.lower m)
               (Documented.lower (take (String.length m) w))
    && (String.length m <=? String.length w)%nat.
Proof.
  revert w. induction m as [|c m IH]; intros w NF.
  - destruct rest, w; reflexivity.
  - cbn [nul_free] in NF. apply andb_true_iff in NF. destruct NF as [Hc NF].
    assert (P : (strlen (String c m) <=? 0) = false).
    { apply Z.leb_gt. unfold strlen. cbn [String.length]. lia. }
    assert (Q : strlen (String c m) - 1 = strlen m).
    { unfold strlen. cbn [String.length]. lia. }
    cbn [append strncasecmp]. rewrite P.
    destruct w as [|d w].
    + rewrite Z.sub_0_r.
      destruct (uchar (tolower c) =? 0) eqn:E; [|reflexivity].
      apply Z.eqb_eq in E. apply uchar_nul, tolower_nul in E. subst c.
      discriminate Hc.
    + cbn [String.length take Documented.lower String.eqb Nat.leb].
      change (S (String.length m) <=? S (String.length w))%nat
        with (String.length m <=? String.length w)%nat.
      destruct (Ascii.eqb_spec (tolower c) (tolower d)) as [E|E].
      * rewrite Q. apply IH, NF.
      * cbn [andb]. apply Z.eqb_neq. intros C. apply E, uchar_inj. lia.
Qed.

End CStrFacts.

(* ================================================================== *)
(** ** Facts about fontpack.cc *)
(* ================================================================== *)

Section FontpackFacts.
Import CStr Ftw Fontpack.

Lemma tflag_eqb_eq (a b : tflag) : tflag_eqb a b = true <-> a = b.
Proof. destruct a, b; simpl; split; congruence. Qed.

(** The filter returns a non-zero value only from its first branch,
    which asks for the type flag FTW_D. *)
Lemma fontFileFilter_returns_0 fpath tf ftwbuf g :
  tf <> FTW_D -> fst (fontFileFilter fpath tf ftwbuf g) = 0.
Proof.
  intros Hd. unfold fontFileFilter.
  assert (E : tflag_eqb tf FTW_D = false).
  { destruct tf; simpl; congruence. }
  rewrite E. cbn [andb].
  repeat match goal with
         | |- context [match ?x with _ => _ end] => destruct x
         end; reflexivity.
Qed.

(** Objects that are neither files nor directories are not reported
    as FTW_D either. *)
Lemma special_tflag_not_D k : special_tflag k <> FTW_D.
Proof. destruct k; discriminate. Qed.

(** The walk started by the constructor never delivers FTW_D, so the
    filter never stops it: every object of the tree is visited. *)
Lemma visit_fontFileFilter_returns_0 :
  forall n fpath b lvl g, fst (visit fontFileFilter fpath b lvl n g) = 0.
Proof.
  induction n as [|es IH|k] using node_ind'; intros fpath b lvl g.
  - apply fontFileFilter_returns_0. discriminate.
  - cbn [visit].
    match goal with
    | |- fst (let '(rc, st') := ?w es g in _) = 0 =>
        assert (W : forall st, fst (w es st) = 0)
    end.
    { induction IH as [|[name c] r Hc _ IHr]; intros st; [reflexivity|].
      cbn [entry_node] in Hc.
      match goal with
      | |- fst (let '(rc, st') := ?v in _) = 0 =>
          specialize (Hc (dir_prefix fpath ++ name)%string
                         (String.length (dir_prefix fpath)) (lvl + 1) st);
          destruct v as [rc st']
      end.
      cbn [fst] in Hc. subst rc. cbn [Z.eqb]. apply IHr. }
    specialize (W g).
    match goal with
    | |- fst (let '(rc, st') := ?v in _) = 0 => destruct v as [rc st']
    end.
    cbn [fst] in W. subst rc. cbn [Z.eqb].
    apply fontFileFilter_returns_0. discriminate.
  - apply fontFileFilter_returns_0. apply special_tflag_not_D.
Qed.

(** *** [saveCandidate] *)

(** C6, as worded, fails: with fonts/Go/Go-Regular.ttf recorded and no
    Bold candidate held, fonts/Go/Go-Bold.otf is still turned down. *)
Lemma saveCandidate_rejects_first_of_variant :
  ~ Documented.records_as_documented Examples.g_regular_ttf
      "fonts/Go/Go-Bold.otf" ".otf" 2 Bold.
Proof.
  unfold Documented.records_as_documented. cbn. intros [H _]. discriminate H.
Qed.

(** C6 (amended): a candidate is turned down, with a line in the trace
    log and nothing else changed, exactly when an extension is already
    committed and the candidate's extension is a different string,
    whether or not a candidate is held for its variant; in every other
    case its path, extension and depth are recorded, replacing the
    candidate held for that variant and leaving the other variants. *)
Theorem saveCandidate_checks_committed_extension :
  forall g fpath e lvl v,
    let s := sstate g in
    let r := saveCandidate g fpath e lvl v in
    let announce := (variant_name v ++ ": " ++ fpath)%string in
    (ext s <> "" /\ ext s <> e ->
       fst r = 1 /\ sstate (snd r) = s
       /\ logT (snd r) = (logT g ++ [announce; reject_message e (ext s)])%list)
    /\ (ext s = "" \/ ext s = e ->
       fst r = 0 /\ dest v (sstate (snd r)) = fpath
       /\ ext (sstate (snd r)) = e /\ level (sstate (snd r)) = lvl
       /\ (forall v', v' <> v -> dest v' (sstate (snd r)) = dest v' s)
       /\ fontname (sstate (snd r)) = fontname s
       /\ fontnamelen (sstate (snd r)) = fontnamelen s
       /\ logT (snd r) = (logT g ++ [announce])%list).
Proof.
  intros g fpath e lvl v s r announce. subst r. unfold saveCandidate.
  cbn [trace sstate]. fold s.
  destruct (String.eqb_spec (ext s) "") as [E0|E0];
    destruct (String.eqb_spec (ext s) e) as [E1|E1]; cbn [negb andb fst snd];
    split; intros H.
  all: try (destruct H as [H0 H1]; congruence).
  all: try (destruct H as [H|H]; congruence).
  all: repeat split; try (destruct v; reflexivity);
    try (intros v' Hv; destruct v, v'; try reflexivity; congruence);
    try (cbn [logT trace]; rewrite <- app_assoc; reflexivity).
Qed.

(** A candidate whose extension differs from the committed one is
    turned down although no Bold candidate is held. *)
Lemma saveCandidate_checks_committed_extension_witness :
  fst (saveCandidate Examples.g_regular_ttf "fonts/Go/Go-Bold.otf" ".otf" 2 Bold) = 1.
Proof.
  apply (saveCandidate_checks_committed_extension
           Examples.g_regular_ttf "fonts/Go/Go-Bold.otf" ".otf" 2 Bold).
  split; discriminate.
Defined.

(** *** The mid part *)

(** A mid part found in the lexicon, in whatever case, is offered to
    the variant the lexicon says. *)
Lemma classify_of_lexicon_word mid rest v :
  nul_free mid = true ->
  Documented.lexicon_variant mid = Some v ->
  classify (mid ++ rest) (strlen mid) = Some v.
Proof.
  intros NF H. unfold classify.
  rewrite !strncasecmp_prefix by exact NF.
  unfold strlen. rewrite <- (length_lower mid).
  unfold Documented.lexicon_variant, Documented.one_of in H.
  cbn [existsb] in H.
  revert H. generalize (Documented.lower mid) as L. intros L H.
  repeat match type of H with
         | context [String.eqb L ?w] =>
             let E := fresh "E" in
             revert H; destruct (String.eqb L w) eqn:E; intros H;
             [apply String.eqb_eq in E; subst L;
              vm_compute in H; vm_compute; exact H|]
         end.
  discriminate H.
Qed.

(** C7: a mid part that is a proper prefix of a lexicon word is taken
    for that word.  "Reg" is not in the lexicon, yet fonts/Go-Reg.ttf is
    recorded as the Regular face of "Go". *)
Theorem fontFileFilter_takes_prefix_of_lexicon_word :
  let g := with_sstate (set_fontname "Go") globals_init in
  Documented.lexicon_variant "Reg" = None
  /\ classify "Reg.ttf" 3 = Some Regular
  /\ regular (sstate (snd (fontFileFilter "fonts/Go-Reg.ttf" FTW_F (mkFTW 6 1) g)))
     = "fonts/Go-Reg.ttf"
  /\ fst (Fontpack (Some (Dir [Entry "Go-Reg.ttf" File])) "fonts" "Go" globals_init)
     = Constructed (mkFaces "fonts/Go-Reg.ttf" None None None).
Proof. repeat split; vm_compute; reflexivity. Qed.

(** *** The walk *)

(** Had the walk reported a finished directory as FTW_D, the first
    branch of the filter would stop it. *)
Lemma fontFileFilter_stops_on_FTW_D fpath ftwbuf g :
  0 < level (sstate g) ->
  Ftw.level ftwbuf = level (sstate g) - 1 ->
  regular (sstate g) <> "" ->
  fontFileFilter fpath FTW_D ftwbuf g = (1, g).
Proof.
  intros Hl Hf Hr. unfold fontFileFilter. cbn [tflag_eqb andb].
  apply Z.ltb_lt in Hl. rewrite Hl. apply Z.eqb_eq in Hf. rewrite Hf.
  destruct (regular (sstate g)); [congruence|].
  unfold strlen. cbn [String.length]. reflexivity.
Qed.

(** C3: the walk does not stop when it finishes fonts/A, although
    fonts/A/Go-Regular.ttf was recorded one level below it: the
    directory is reported as FTW_DP, the filter returns 0, and the
    sibling fonts/B is visited next and contributes the Bold face.
    No walk started by the constructor is ever stopped by the filter. *)
Theorem walk_goes_on_after_directory_with_regular :
  let g := with_sstate (set_fontname "Go") globals_init in
  let g_A := snd (fontFileFilter "fonts/A/Go-Regular.ttf" FTW_F (mkFTW 8 2) g) in
  regular (sstate g_A) = "fonts/A/Go-Regular.ttf"
  /\ level (sstate g_A) = 1 + 1
  /\ fontFileFilter "fonts/A" FTW_DP (mkFTW 6 1) g_A = (0, g_A)
  /\ fst (Fontpack (Some Examples.tree_siblings) "fonts" "Go" globals_init)
     = Constructed (mkFaces "fonts/A/Go-Regular.ttf"
                            (Some "fonts/B/Go-Bold.ttf") None None)
  /\ (forall n fontpath g', fst (nftw fontFileFilter (Some n) fontpath g') = 0).
Proof.
  split; [vm_compute; reflexivity|].
  split; [vm_compute; reflexivity|].
  split; [vm_compute; reflexivity|].
  split; [vm_compute; reflexivity|].
  intros n fontpath g'. apply visit_fontFileFilter_returns_0.
Qed.

(** C4: the Bold candidate recorded under fonts/Partial, where there is
    no Regular, is still held when that directory has been finished,
    and it ends up in the faces that are loaded, next to a Regular
    found in another directory. *)
Theorem partial_candidates_survive_their_directory :
  let g := with_sstate (set_fontname "Foo") globals_init in
  let g_P := snd (fontFileFilter "fonts/Partial/Foo-Bold.ttf" FTW_F (mkFTW 14 2) g) in
  regular (sstate g_P) = "" /\ bold (sstate g_P) = "fonts/Partial/Foo-Bold.ttf"
  /\ fontFileFilter "fonts/Partial" FTW_DP (mkFTW 6 1) g_P = (0, g_P)
  /\ fst (Fontpack (Some Examples.tree_partial) "fonts" "Foo" globals_init)
     = Constructed (mkFaces "fonts/Full/Foo-Regular.ttf"
                            (Some "fonts/Partial/Foo-Bold.ttf") None None).
Proof. repeat split; vm_compute; reflexivity. Qed.

(** A tree holding a Bold face only does not resolve. *)
Lemma bold_only_tree_fails :
  fst (Fontpack (Some Examples.tree_bold_only) "fonts" "Foo" globals_init)
  = RuntimeError "No suitable files for 'Foo' found!".
Proof. vm_compute. reflexivity. Qed.

(** *** The constructor *)

Lemma strlen_0 (x : string) : (0 <? strlen x) = false <-> x = "".
Proof.
  unfold strlen. destruct x; cbn [String.length].
  - split; reflexivity.
  - split; intros H; [apply Z.ltb_ge in H; lia | discriminate].
Qed.

Lemma nftw_fontFileFilter_returns_0 n fontpath g :
  fst (nftw fontFileFilter (Some n) fontpath g) = 0.
Proof. apply visit_fontFileFilter_returns_0. Qed.

(** C5: once the tree has been walked, the constructor throws (the
    message names the family) if and only if no Regular candidate is
    held; the faces of an object that is constructed always include a
    Regular path, the one held, which is not empty.  (A starting path
    that names nothing does not get that far: [SYS_ERROR].) *)
Theorem Fontpack_throws_iff_no_regular :
  forall root fontpath name g,
    let r := Fontpack root fontpath name g in
    let kept := regular (sstate (snd r)) in
    (forall n, root = Some n ->
       (fst r = RuntimeError ("No suitable files for '" ++ name ++ "' found!")
        <-> kept = "")
       /\ (kept <> "" <-> exists f, fst r = Constructed f))
    /\ (forall f, fst r = Constructed f -> fontRegular f = kept /\ kept <> "")
    /\ (root = None -> fst r = SYS_ERROR "Cannot walk file tree; nftw()").
Proof.
  intros root fontpath name g r kept. subst kept r. unfold Fontpack.
  set (g0 := with_sstate _ _).
  destruct root as [n|].
  - pose proof (nftw_fontFileFilter_returns_0 n fontpath g0) as H0.
    destruct (nftw fontFileFilter (Some n) fontpath g0) as [rc g1].
    cbn [fst] in H0. subst rc. cbn [Z.eqb].
    destruct (0 <? strlen (regular (sstate g1))) eqn:E; cbn [negb fst snd].
    + assert (N : regular (sstate g1) <> "").
      { intros C. apply strlen_0 in C. congruence. }
      split; [|split].
      * intros m _. split; split; try discriminate; try congruence; eauto.
      * intros f Hf. injection Hf as <-. split; [reflexivity|exact N].
      * discriminate.
    + apply strlen_0 in E. cbn [sstate error]. split; [|split].
      * intros m _. split; split; try congruence; try reflexivity.
        intros [f Hf]. discriminate.
      * discriminate.
      * discriminate.
  - cbn. split; [|split]; try discriminate. reflexivity.
Qed.

(** A walked tree without a Regular makes the constructor throw. *)
Lemma Fontpack_throws_iff_no_regular_witness :
  fst (Fontpack (Some Examples.tree_bold_only) "fonts" "Foo" globals_init)
  = RuntimeError "No suitable files for 'Foo' found!".
Proof.
  apply (Fontpack_throws_iff_no_regular
           (Some Examples.tree_bold_only) "fonts" "Foo" globals_init)
    with (n := Examples.tree_bold_only); reflexivity.
Defined.

(** C8, as worded, fails: after "Go" has been resolved under
    [Examples.tree_go], resolving "Mono" under an empty directory
    yields the faces of "Go", where a fresh process would throw. *)
Lemma later_resolution_sees_earlier_candidates :
  ~ Documented.independent_of_history
      Examples.g_after_go (Some Examples.tree_empty) "other" "Mono".
Proof. unfold Documented.independent_of_history. vm_compute. discriminate. Qed.

(** C8 (amended): the bookkeeping is the one object [sstate] of the
    process, not a state of one call.  The constructor replaces the
    family name and its length and nothing else, so the walk starts
    from the candidates, the extension and the depth the previous
    resolution left (empty in a fresh process, where nothing has been
    recorded yet), and what the constructor ends with is what the
    walk makes of that start.  A Regular left by an earlier
    resolution is handed out again, with the other faces left, by a
    resolution whose walk is over an empty directory. *)
Theorem Fontpack_walk_starts_from_previous_sstate :
  forall root fontpath name g,
    let start :=
      with_sstate (set_fontname name)
        (trace ("Fontpack: fontpath=" ++ fontpath ++ "; fontname=" ++ name) g) in
    sstate (snd (Fontpack root fontpath name g))
    = sstate (snd (nftw fontFileFilter root fontpath start))
    /\ fontname (sstate start) = name
    /\ fontnamelen (sstate start) = strlen name
    /\ level (sstate start) = level (sstate g)
    /\ ext (sstate start) = ext (sstate g)
    /\ (forall v, dest v (sstate start) = dest v (sstate g))
    /\ (sstate g = sstate_init -> sstate start = set_fontname name sstate_init)
    /\ (regular (sstate g) <> "" ->
        fst (Fontpack (Some (Dir [])) fontpath name g)
        = Constructed (mkFaces (regular (sstate g))
                               (if_found (bold (sstate g)))
                               (if_found (italic (sstate g)))
                               (if_found (boldItalic (sstate g))))).
Proof.
  intros root fontpath name g start.
  split; [|split; [|split; [|split; [|split; [|split; [|split]]]]]];
    try reflexivity.
  - unfold Fontpack. fold start.
    destruct (nftw fontFileFilter root fontpath start) as [rc g1].
    cbn [snd]. destruct (rc =? -1); [reflexivity|].
    destruct (negb _); reflexivity.
  - intros H. subst start. cbn [with_sstate trace sstate]. rewrite H. reflexivity.
  - intros H. unfold Fontpack. cbn [nftw visit].
    unfold fontFileFilter. cbn [tflag_eqb andb negb fst snd Z.eqb].
    cbn [with_sstate trace sstate set_fontname regular bold italic boldItalic].
    destruct (0 <? strlen (regular (sstate g))) eqn:E; [reflexivity|].
    apply strlen_0 in E. congruence.
Qed.

(** The faces of "Go" are handed out again by a resolution that finds
    nothing of its own. *)
Lemma Fontpack_walk_starts_from_previous_sstate_witness :
  fst (Fontpack (Some (Dir [])) "other" "Mono" Examples.g_after_go)
  = Constructed (mkFaces "fonts/Go/Go-Regular.ttf"
                         (Some "fonts/Go/Go-Bold.ttf")
                         (Some "fonts/Go/Go-Italic.ttf")
                         (Some "fonts/Go/Go-BoldItalic.ttf")).
Proof.
  apply (Fontpack_walk_starts_from_previous_sstate
           None "other" "Mono" Examples.g_after_go).
  vm_compute. discriminate.
Defined.

(** *** The extension *)

Lemma strrchr_last_suffix s :
  option_map (from s) (strrchr s ".") = Documented.last_suffix s.
Proof.
  induction s as [|a r IH]; [reflexivity|].
  cbn [strrchr Documented.last_suffix]. rewrite <- IH.
  destruct (strrchr r ".") as [i|]; cbn [option_map from]; [reflexivity|].
  destruct (Ascii.eqb a "."); reflexivity.
Qed.

Lemma without_last_suffix_take s e :
  strrchr s "." = Some e -> Documented.without_last_suffix s = take e s.
Proof.
  revert e. induction s as [|a r IH]; intros e H; [discriminate|].
  cbn [strrchr] in H. cbn [Documented.without_last_suffix].
  rewrite <- strrchr_last_suffix.
  destruct (strrchr r ".") as [j|]; cbn [option_map].
  - injection H as <-. cbn [take]. rewrite (IH j eq_refl). reflexivity.
  - destruct (Ascii.eqb a "."); [|discriminate]. injection H as <-. reflexivity.
Qed.

(** The loop stops on the last dot before [ext], or on the first
    character of the name when there is none. *)
Lemma back_to_dot_spec s q :
  (q < String.length s)%nat ->
  back_to_dot s q
  = match strrchr (take (S q) s) "." with Some j => j | None => O end.
Proof.
  induction q as [|q IH]; intros H.
  - destruct s as [|c r]; cbn in *; [lia|].
    destruct (Ascii.eqb c "."); reflexivity.
  - cbn [back_to_dot]. rewrite (take_snoc (S q) s H), strrchr_snoc.
    rewrite length_take by lia.
    destruct (Ascii.eqb (at_ s (S q)) "."); [reflexivity|].
    apply IH. lia.
Qed.

Lemma known_ext_one_of x :
  nul_free x = true ->
  known_ext x = Documented.one_of [".ttf"; ".otf"; ".pcf.gz"] x.
Proof.
  intros H. unfold known_ext, Documented.one_of. cbn [existsb].
  rewrite !strcasecmp_0 by (exact H || reflexivity).
  change (Documented.lower ".ttf") with ".ttf".
  change (Documented.lower ".otf") with ".otf".
  change (Documented.lower ".pcf.gz") with ".pcf.gz".
  destruct (String.eqb (Documented.lower x) ".ttf");
    destruct (String.eqb (Documented.lower x) ".otf");
    destruct (String.eqb (Documented.lower x) ".pcf.gz"); reflexivity.
Qed.

Lemma known_ext_starts_with_dot c r :
  known_ext (String c r) = true -> c = "."%char.
Proof.
  unfold known_ext. cbn [strcasecmp].
  change (tolower ".") with "."%char.
  destruct (Ascii.eqb_spec (tolower c) ".") as [E|E].
  - intros _. apply tolower_dot, E.
  - assert (N : (uchar (tolower c) - uchar "." =? 0) = false).
    { apply Z.eqb_neq. intros C. apply E, uchar_inj. lia. }
    rewrite N. discriminate.
Qed.

(** The pointer [ext] against the extension of the design document:
    they designate the same text, except for a name that ends in ".gz"
    and has no other dot after its first character, where the loop
    runs back to the start of the name; such a name is not accepted. *)
Lemma find_ext_extension fname :
  nul_free fname = true ->
  match find_ext fname with
  | None => Documented.extension fname = None
  | Some e =>
      Documented.extension fname = Some (from fname e)
      \/ (e = O /\ known_ext fname = false
          /\ exists suf, Documented.extension fname = Some suf
                         /\ Documented.same_ignoring_case suf ".gz" = true)
  end.
Proof.
  intros NF. unfold find_ext, Documented.extension.
  rewrite <- strrchr_last_suffix.
  destruct (strrchr fname ".") as [e|] eqn:E; cbn [option_map]; [|reflexivity].
  rewrite (strcasecmp_0 (from fname e) ".gz") by (auto using nul_free_from).
  change (String.eqb (Documented.lower (from fname e)) (Documented.lower ".gz"))
    with (Documented.same_ignoring_case (from fname e) ".gz").
  destruct (Documented.same_ignoring_case (from fname e) ".gz") eqn:G;
    cbn [andb]; [|left; reflexivity].
  rewrite (without_last_suffix_take fname e E), <- strrchr_last_suffix.
  destruct e as [|e'].
  - left. reflexivity.
  - destruct (strrchr_Some _ _ _ E) as (L & _ & _).
    change (0 <? S e')%nat with true. cbn [Nat.sub]. rewrite Nat.sub_0_r.
    rewrite back_to_dot_spec by lia.
    destruct (strrchr (take (S e') fname) ".") as [j|] eqn:J; cbn [option_map].
    + left. destruct (strrchr_Some _ _ _ J) as (Lj & _ & _).
      rewrite <- (take_from (S e') fname) at 3.
      rewrite from_app by lia. reflexivity.
    + right. split; [reflexivity|]. split; [|eauto].
      destruct fname as [|c r]; [cbn in L; lia|].
      destruct (known_ext (String c r)) eqn:K; [|reflexivity].
      apply known_ext_starts_with_dot in K. subst c.
      cbn [take strrchr] in J.
      destruct (strrchr (take e' r) "."); discriminate.
Qed.

(** C9: for a name without NUL characters, the pointer [ext] designates
    the extension of the design document (the final dot-delimited
    suffix, merged with the suffix before it when it is ".gz" in any
    case) whenever the file is accepted, and the file is accepted
    exactly when that extension is ".ttf", ".otf" or ".pcf.gz" in any
    case; a file that is not accepted leaves the globals as they are. *)
Theorem ext_filter_is_documented_extension :
  forall fname,
    nul_free fname = true ->
    option_map (from fname) (ext_filter fname)
    = Documented.accepted_extension fname
    /\ (ext_filter fname = None ->
        forall fpath ftwbuf g,
          from fpath (base ftwbuf) = fname ->
          fontFileFilter fpath FTW_F ftwbuf g = (0, g)).
Proof.
  intros fname NF. split.
  2:{ intros H fpath ftwbuf g F. unfold fontFileFilter.
      cbn [tflag_eqb andb negb]. rewrite F, H. reflexivity. }
  pose proof (find_ext_extension fname NF) as X.
  unfold ext_filter, Documented.accepted_extension.
  destruct (find_ext fname) as [e|]; [|rewrite X; reflexivity].
  destruct X as [X|(-> & K & suf & X & G)]; rewrite X.
  - rewrite (known_ext_one_of (from fname e)) by (auto using nul_free_from).
    destruct (Documented.one_of _ (from fname e)); reflexivity.
  - cbn [from]. rewrite K. cbn [negb option_map].
    apply String.eqb_eq in G. change (Documented.lower ".gz") with ".gz" in G.
    unfold Documented.one_of. rewrite G. reflexivity.
Qed.

(** Go-Regular.pcf.gz passes with the extension ".pcf.gz". *)
Lemma ext_filter_is_documented_extension_witness :
  nul_free "Go-Regular.pcf.gz" = true
  /\ option_map (from "Go-Regular.pcf.gz") (ext_filter "Go-Regular.pcf.gz")
     = Some ".pcf.gz".
Proof.
  split; [reflexivity|].
  rewrite (proj1 (ext_filter_is_documented_extension
                    "Go-Regular.pcf.gz" eq_refl)).
  reflexivity.
Defined.

End FontpackFacts.

(* ================================================================== *)
(** ** What the font search keeps and returns *)
(* ================================================================== *)

Section FontpackSearch.
Import CStr Ftw Fontpack Props.

(** One call of the filter leaves [sstate] alone, clears it (only on a
    report flagged FTW_D), or records the reported regular file, which
    then has passed the extension and family-name tests and agrees
    with the committed extension. *)
Lemma filter_cases fpath tf ftwbuf g :
  let s := sstate g in
  let s' := sstate (snd (fontFileFilter fpath tf ftwbuf g)) in
  let fname := from fpath (base ftwbuf) in
  s' = s
  \/ (tf = FTW_D /\ s' = clear_results s)
  \/ (tf = FTW_F
      /\ exists v e,
           ext_filter fname = Some e
           /\ strncasecmp fname (fontname s) (fontnamelen s) = 0
           /\ (ext s = "" \/ ext s = from fname e)
           /\ s' = set_ext_level (from fname e) (Ftw.level ftwbuf)
                                 (set_dest v fpath s)).
Proof.
  cbv zeta. unfold fontFileFilter.
  destruct (tflag_eqb tf FTW_D) eqn:TD.
  - apply tflag_eqb_eq in TD. subst tf. cbn [andb].
    destruct (0 <? level (sstate g)); cbn [andb];
      [|left; reflexivity].
    destruct ((Ftw.level ftwbuf =? level (sstate g) - 1)
              && (0 <? strlen (regular (sstate g)))); [left; reflexivity|].
    right. left. split; reflexivity.
  - cbn [andb].
    destruct (tflag_eqb tf FTW_F) eqn:TF; cbn [negb]; [|left; reflexivity].
    apply tflag_eqb_eq in TF. subst tf.
    destruct (ext_filter (from fpath (base ftwbuf))) as [e|] eqn:E;
      [|left; reflexivity].
    destruct (strncasecmp (from fpath (base ftwbuf)) (fontname (sstate g))
                          (fontnamelen (sstate g)) =? 0) eqn:N;
      cbn [negb]; [|left; reflexivity].
    apply Z.eqb_eq in N.
    destruct (mid_part _ _ e) as [mid midlen].
    destruct (classify _ midlen) as [v|]; [|left; reflexivity].
    unfold saveCandidate. cbn [trace sstate snd].
    destruct (String.eqb_spec (ext (sstate g)) "") as [X|X]; cbn [negb andb snd].
    + right. right. split; [reflexivity|]. exists v, e. auto.
    + destruct (String.eqb_spec (ext (sstate g))
                  (from (from fpath (base ftwbuf)) e)) as [Y|Y];
        cbn [negb snd]; [|left; reflexivity].
      right. right. split; [reflexivity|]. exists v, e. auto.
Qed.

Lemma feed_app a b g : feed (a ++ b) g = feed b (feed a g).
Proof. unfold feed. apply fold_left_app. Qed.

(** The walk hands the reports of the tree to the filter one by one. *)
Lemma visit_feed :
  forall n fpath b lvl g,
    visit fontFileFilter fpath b lvl n g
    = (0, feed (reports fpath b lvl n) g).
Proof.
  assert (F : forall fpath tf ftwbuf g,
             tf <> FTW_D ->
             fontFileFilter fpath tf ftwbuf g
             = (0, feed [(fpath, tf, ftwbuf)] g)).
  { intros fpath tf ftwbuf g H.
    pose proof (fontFileFilter_returns_0 fpath tf ftwbuf g H) as Z.
    cbn [feed fold_left filter1].
    destruct (fontFileFilter fpath tf ftwbuf g) as [rc g']. cbn in *.
    congruence. }
  induction n as [|es IH|k] using node_ind'; intros fpath b lvl g.
  - apply F. discriminate.
  - cbn [visit reports].
    match goal with
    | |- (let '(rc, st') := ?w es g in _) = (0, feed (?r es ++ _) g) =>
        assert (W : forall st, w es st = (0, feed (r es) st))
    end.
    { induction IH as [|[name c] r Hc _ IHr]; intros st; [reflexivity|].
      cbn [entry_node] in Hc.
      rewrite Hc. cbn [Z.eqb]. rewrite IHr, feed_app. reflexivity. }
    rewrite W. cbn [Z.eqb]. rewrite feed_app. apply F. discriminate.
  - apply F. apply special_tflag_not_D.
Qed.

(** No report of the walk carries the flag FTW_D. *)
Lemma reports_not_D :
  forall n fpath b lvl p tf f,
    In (p, tf, f) (reports fpath b lvl n) -> tf <> FTW_D.
Proof.
  induction n as [|es IH|k] using node_ind'; intros fpath b lvl p tf f H.
  - cbn in H. destruct H as [H|[]]. injection H as _ <- _. discriminate.
  - cbn [reports] in H. apply in_app_or in H. destruct H as [H|H].
    + revert H. induction IH as [|[name c] r Hc _ IHr]; intros H; [destruct H|].
      apply in_app_or in H. destruct H as [H|H]; [|apply IHr, H].
      cbn [entry_node] in Hc. eapply Hc, H.
    + destruct H as [H|[]]. injection H as _ <- _. discriminate.
  - cbn in H. destruct H as [H|[]]. injection H as _ <- _.
    apply special_tflag_not_D.
Qed.

(** A property of the globals that every report of a list preserves
    holds after the whole list. *)
Lemma feed_invariant (P : Globals -> Prop) rs :
  (forall r g, In r rs -> P g -> P (filter1 g r)) ->
  forall g, P g -> P (feed rs g).
Proof.
  induction rs as [|r rs IH]; intros H g Pg; [exact Pg|].
  cbn [feed fold_left]. apply IH.
  - intros r' g' I. apply H. right. exact I.
  - apply H; [left; reflexivity|exact Pg].
Qed.

Lemma from_from s a b : from (from s a) b = from s (a + b).
Proof.
  revert s. induction a as [|a IH]; intros s; [reflexivity|].
  destruct s as [|c r]; cbn [from Nat.add].
  - destruct b; reflexivity.
  - apply IH.
Qed.


Lemma ext_filter_known fname e :
  ext_filter fname = Some e -> known_ext (from fname e) = true.
Proof.
  unfold ext_filter. destruct (find_ext fname) as [e'|]; [|discriminate].
  destruct (known_ext (from fname e')) eqn:K; cbn [negb]; [|discriminate].
  intros H. injection H as <-. exact K.
Qed.


Lemma dest_recorded_cases v v' p x l s :
  dest v' (set_ext_level x l (set_dest v p s)) = p
  \/ dest v' (set_ext_level x l (set_dest v p s)) = dest v' s.
Proof. destruct v, v'; cbn; auto. Qed.

Lemma consistent_filter1 g r :
  consistent (sstate g) -> consistent (sstate (filter1 g r)).
Proof.
  destruct r as [[fpath tf] ftwbuf]. intros C. cbn [filter1].
  destruct (filter_cases fpath tf ftwbuf g)
    as [E|[[_ E]|(_ & v & e & X & _ & A & E)]]; rewrite E; clear E.
  - exact C.
  - intros v' H. destruct v'; cbn in H; congruence.
  - pose proof (ext_filter_known _ _ X) as K.
    intros v' H. split; [exact K|].
    destruct (dest_recorded_cases v v' fpath
                (from (from fpath (base ftwbuf)) e) (Ftw.level ftwbuf)
                (sstate g)) as [D|D]; rewrite D in *.
    + exists (base ftwbuf + e)%nat. symmetry. apply from_from.
    + destruct (C v' H) as [K' W].
      destruct A as [A|A].
      * rewrite A in K'. discriminate K'.
      * cbn [ext set_ext_level]. rewrite <- A. exact W.
Qed.

Lemma sstate_Fontpack root fontpath name g :
  sstate (snd (Fontpack root fontpath name g))
  = sstate (snd (nftw fontFileFilter root fontpath
                   (with_sstate (set_fontname name)
                      (trace ("Fontpack: fontpath=" ++ fontpath
                                ++ "; fontname=" ++ name) g)))).
Proof.
  unfold Fontpack.
  destruct (nftw fontFileFilter root fontpath _) as [rc g1].
  cbn [snd]. destruct (rc =? -1); [reflexivity|].
  destruct (negb _); reflexivity.
Qed.

Lemma Fontpack_faces root fontpath name g f :
  fst (Fontpack root fontpath name g) = Constructed f ->
  let s := sstate (snd (Fontpack root fontpath name g)) in
  regular s <> ""
  /\ f = mkFaces (regular s) (if_found (bold s)) (if_found (italic s))
                 (if_found (boldItalic s)).
Proof.
  unfold Fontpack.
  destruct (nftw fontFileFilter root fontpath _) as [rc g1].
  destruct (rc =? -1); [discriminate|].
  destruct (0 <? strlen (regular (sstate g1))) eqn:E; cbn [negb fst snd];
    [|discriminate].
  intros H. injection H as <-. split; [|reflexivity].
  intros C. apply strlen_0 in C. congruence.
Qed.

Lemma if_found_Some path p : if_found path = Some p -> p = path /\ path <> "".
Proof.
  unfold if_found. destruct (0 <? strlen path) eqn:E; [|discriminate].
  intros H. injection H as <-. split; [reflexivity|].
  intros C. apply strlen_0 in C. congruence.
Qed.

(** X7: when the candidates held before a resolution all end with the
    committed extension (as in a fresh process, where none is held),
    the faces of the constructed object all end with one and the same
    extension, character for character, and it is one the filter
    accepts; files of different extensions are never mixed. *)
Theorem faces_share_extension :
  forall root fontpath name g f,
    consistent (sstate g) ->
    fst (Fontpack root fontpath name g) = Constructed f ->
    exists e,
      known_ext e = true
      /\ ends_with (fontRegular f) e
      /\ (forall p, fontBold f = Some p -> ends_with p e)
      /\ (forall p, fontItalic f = Some p -> ends_with p e)
      /\ (forall p, fontBoldItalic f = Some p -> ends_with p e).
Proof.
  intros root fontpath name g f C H.
  destruct (Fontpack_faces _ _ _ _ _ H) as [R ->].
  assert (K : consistent (sstate (snd (Fontpack root fontpath name g)))).
  { rewrite sstate_Fontpack. destruct root as [n|]; [|exact C].
    cbn [nftw]. rewrite visit_feed. cbn [snd].
    apply (feed_invariant (fun g => consistent (sstate g))); [|exact C].
    intros r g' _. apply consistent_filter1. }
  set (s := sstate (snd (Fontpack root fontpath name g))) in *.
  exists (ext s). destruct (K Regular R) as [KE ER].
  split; [exact KE|]. split; [exact ER|]. cbn [fontBold fontItalic fontBoldItalic].
  repeat split; intros p Hp; apply if_found_Some in Hp; destruct Hp as [-> N].
  - apply (K Bold N).
  - apply (K Italic N).
  - apply (K BoldItalic N).
Qed.

(** The four faces of "Go" under fonts/Go all end with ".ttf". *)
Lemma faces_share_extension_witness :
  exists e,
    known_ext e = true
    /\ ends_with "fonts/Go/Go-Regular.ttf" e
    /\ ends_with "fonts/Go/Go-Bold.ttf" e.
Proof.
  destruct (faces_share_extension (Some Examples.tree_go) "fonts" "Go"
              globals_init
              (mkFaces "fonts/Go/Go-Regular.ttf"
                       (Some "fonts/Go/Go-Bold.ttf")
                       (Some "fonts/Go/Go-Italic.ttf")
                       (Some "fonts/Go/Go-BoldItalic.ttf")))
    as (e & K & R & B & _).
  - intros v H. destruct v; cbn in H; congruence.
  - reflexivity.
  - exists e. split; [exact K|]. split; [exact R|]. apply B. reflexivity.
Defined.




Lemma from_reports_filter1 rs s0 g r :
  In r rs ->
  (forall p tf f, r = (p, tf, f) -> tf <> FTW_D) ->
  (fontname (sstate g) = fontname s0
   /\ fontnamelen (sstate g) = fontnamelen s0
   /\ forall v, from_reports rs s0 (sstate g) v) ->
  fontname (sstate (filter1 g r)) = fontname s0
  /\ fontnamelen (sstate (filter1 g r)) = fontnamelen s0
  /\ forall v, from_reports rs s0 (sstate (filter1 g r)) v.
Proof.
  destruct r as [[fpath tf] ftwbuf]. intros I ND (N & L & P).
  specialize (ND fpath tf ftwbuf eq_refl). cbn [filter1].
  destruct (filter_cases fpath tf ftwbuf g)
    as [X|[[X _]|(T & v & e & F & C & _ & X)]];
    [rewrite X; auto|congruence|rewrite X; clear X].
  split; [destruct v; exact N|]. split; [destruct v; exact L|].
  intros v'.
  destruct (dest_recorded_cases v v' fpath
              (from (from fpath (base ftwbuf)) e) (Ftw.level ftwbuf)
              (sstate g)) as [Y|Y]; unfold from_reports; rewrite Y.
  - right. destruct ftwbuf as [b lvl]. cbn [base] in *. subst tf.
    exists b, lvl, e. split; [exact I|]. split; [exact F|]. congruence.
  - apply P.
Qed.

(** X9: the constructor never makes up a path.  For each variant, the
    candidate held after a resolution is the one held before it, or the
    path under which the walk reported a regular file of the tree, and
    that file has passed the extension test and the family-name test
    of the filter. *)
Theorem candidates_come_from_the_tree :
  forall n fontpath name g v,
    from_reports (reports fontpath (start_base fontpath) 0 n)
                 (set_fontname name (sstate g))
                 (sstate (snd (Fontpack (Some n) fontpath name g))) v.
Proof.
  intros n fontpath name g v. rewrite sstate_Fontpack.
  cbn [nftw]. rewrite visit_feed. cbn [snd].
  set (rs := reports fontpath (start_base fontpath) 0 n).
  set (g0 := with_sstate _ _).
  change (set_fontname name (sstate g)) with (sstate g0).
  apply (feed_invariant
           (fun g' => fontname (sstate g') = fontname (sstate g0)
                      /\ fontnamelen (sstate g') = fontnamelen (sstate g0)
                      /\ forall v, from_reports rs (sstate g0) (sstate g') v)).
  - intros r g' I. apply from_reports_filter1; [exact I|].
    intros p tf f ->. eapply reports_not_D, I.
  - split; [reflexivity|]. split; [reflexivity|]. intros v'. left. reflexivity.
Qed.

(** *** The tests of the filter, one by one *)

Lemma length_take_le n s : (String.length (take n s) <= n)%nat.
Proof.
  revert s. induction n as [|n IH]; intros [|c r]; cbn; try lia.
  specialize (IH r). lia.
Qed.

Lemma length_take_short n s :
  (String.length s < n)%nat -> String.length (take n s) = String.length s.
Proof.
  revert s. induction n as [|n IH]; intros [|c r] H; cbn in *; try lia.
  rewrite IH; lia.
Qed.

Lemma take_take n m s : (n <= m)%nat -> take n (take m s) = take n s.
Proof.
  revert m s. induction n as [|n IH]; intros m s H.
  - destruct m, s; reflexivity.
  - destruct m as [|m]; [lia|]. destruct s as [|c r]; [reflexivity|].
    cbn [take]. rewrite IH by lia. reflexivity.
Qed.

(** Comparing a name against a word over the length of the word: the
    name has to begin with the word, up to case. *)
Lemma strncasecmp_begins w :
  nul_free w = true ->
  forall s,
    (strncasecmp s w (strlen w) =? 0)
    = Documented.same_ignoring_case (take (String.length w) s) w.
Proof.
  unfold Documented.same_ignoring_case.
  induction w as [|d w IH]; intros NF s.
  - destruct s; reflexivity.
  - cbn [nul_free] in NF. apply andb_true_iff in NF. destruct NF as [Hd NF].
    assert (P : (strlen (String d w) <=? 0) = false).
    { apply Z.leb_gt. unfold strlen. cbn [String.length]. lia. }
    assert (Q : strlen (String d w) - 1 = strlen w).
    { unfold strlen. cbn [String.length]. lia. }
    destruct s as [|c s]; cbn [strncasecmp]; rewrite P.
    + cbn. destruct (uchar (tolower d) =? 0) eqn:E.
      * apply Z.eqb_eq in E. apply uchar_nul, tolower_nul in E. subst d.
        discriminate Hd.
      * destruct (uchar (tolower d)); try reflexivity; discriminate.
    + cbn [String.length take Documented.lower String.eqb].
      destruct (Ascii.eqb_spec (tolower c) (tolower d)) as [E|E].
      * rewrite Q. apply IH, NF.
      * apply Z.eqb_neq. intros C. apply E, uchar_inj. lia.
Qed.

(** X10: the family-name test.  With a family name free of NUL
    characters, a regular file whose name does not begin with the
    family name (compared without regard to case) leaves the globals
    as they are; a file that is recorded begins with it, so that the
    pointer [mid] lies within the name. *)
Theorem family_name_test :
  forall fpath ftwbuf g,
    let s := sstate g in
    let fname := from fpath (base ftwbuf) in
    nul_free (fontname s) = true ->
    fontnamelen s = strlen (fontname s) ->
    (Documented.same_ignoring_case
       (take (String.length (fontname s)) fname) (fontname s) = false ->
     fontFileFilter fpath FTW_F ftwbuf g = (0, g))
    /\ (sstate (snd (fontFileFilter fpath FTW_F ftwbuf g)) <> s ->
        Documented.same_ignoring_case
          (take (String.length (fontname s)) fname) (fontname s) = true
        /\ (String.length (fontname s) <= String.length fname)%nat).
Proof.
  intros fpath ftwbuf g s fname NF L.
  pose proof (strncasecmp_begins (fontname s) NF fname) as B.
  split.
  - intros H. unfold fontFileFilter. cbn [tflag_eqb andb negb]. fold s fname.
    destruct (ext_filter fname); [|reflexivity].
    rewrite L, B, H. reflexivity.
  - intros H.
    destruct (filter_cases fpath FTW_F ftwbuf g)
      as [X|[[X _]|(_ & v & e & _ & C & _ & _)]];
      [elim (H X)|discriminate|].
    fold s fname in C. rewrite L in C.
    assert (T : Documented.same_ignoring_case
                  (take (String.length (fontname s)) fname) (fontname s) = true).
    { rewrite <- B. apply Z.eqb_eq, C. }
    split; [exact T|].
    unfold Documented.same_ignoring_case in T. apply String.eqb_eq in T.
    apply (f_equal String.length) in T. rewrite !length_lower in T.
    destruct (Nat.le_gt_cases (String.length (fontname s)) (String.length fname))
      as [G|G]; [exact G|].
    rewrite length_take_short in T by lia. lia.
Qed.

(** With the family "Go", fonts/Mono-Regular.ttf is passed over. *)
Lemma family_name_test_witness :
  let g := with_sstate (set_fontname "Go") globals_init in
  (nul_free (fontname (sstate g)) = true
   /\ fontnamelen (sstate g) = strlen (fontname (sstate g)))
  /\ fontFileFilter "fonts/Mono-Regular.ttf" FTW_F (mkFTW 6 1) g = (0, g).
Proof.
  split; [split; reflexivity|].
  apply (family_name_test "fonts/Mono-Regular.ttf" (mkFTW 6 1)
           (with_sstate (set_fontname "Go") globals_init));
    reflexivity.
Defined.

Lemma back_to_dot_le s p : (back_to_dot s p <= p)%nat.
Proof.
  induction p as [|p IH]; cbn [back_to_dot]; [lia|].
  destruct (Ascii.eqb (at_ s (S p)) "."); lia.
Qed.

Lemma at_from s e c r : from s e = String c r -> at_ s e = c.
Proof.
  revert s. induction e as [|e IH]; intros s H.
  - cbn in H. subst s. reflexivity.
  - destruct s as [|a s']; [discriminate|]. cbn in *. apply IH, H.
Qed.

Lemma do_while_ext_back fname :
  forall q n,
    (q < n)%nat -> (q <= String.length fname)%nat ->
    do_while_ext fname n (Z.of_nat (S q))
    = ExtAt (Z.of_nat (back_to_dot fname q)).
Proof.
  induction q as [|q IH]; intros n N L.
  - destruct n as [|n]; [lia|]. reflexivity.
  - destruct n as [|n]; [lia|]. cbn [do_while_ext back_to_dot].
    replace (Z.of_nat (S (S q)) - 1) with (Z.of_nat (S q)) by lia.
    replace (0 <? Z.of_nat (S q)) with true by (symmetry; apply Z.ltb_lt; lia).
    unfold deref.
    replace (0 <=? Z.of_nat (S q)) with true by (symmetry; apply Z.leb_le; lia).
    replace (Z.of_nat (S q) <=? Z.of_nat (String.length fname)) with true
      by (symmetry; apply Z.leb_le; lia).
    rewrite Nat2Z.id. cbn [andb].
    destruct (Ascii.eqb (at_ fname (S q)) "."); cbn [negb]; [reflexivity|].
    apply IH; lia.
Qed.

(** Entered at the start of the name, the loop would leave it: the
    test [ext > fname] in front of the loop is what prevents this. *)
Remark do_while_ext_at_start fname n :
  do_while_ext fname (S n) 0 = ExtAt (-1).
Proof. reflexivity. Qed.

(** X11: the pointer [ext] never leaves the file name.  With the
    pointer as a signed offset and every read checked, the search for
    the extension (the call of strrchr and the loop that steps back
    over ".gz") reads inside the name only, comes to an end, and
    leaves the pointer on a character of the name, the same one as
    [find_ext] gives; for a file that passes the extension test that
    character is a dot.  A name without a dot gives no pointer. *)
Theorem ext_pointer_in_name :
  forall fname,
    match ext_search_of fname with
    | NoDot => find_ext fname = None
    | ExtAt p =>
        0 <= p < Z.of_nat (String.length fname)
        /\ find_ext fname = Some (Z.to_nat p)
        /\ (ext_filter fname <> None -> deref fname p = Some "."%char)
    | OutOfBounds _ | Unfinished => False
    end.
Proof.
  intros fname.
  assert (K : forall p,
             0 <= p < Z.of_nat (String.length fname) ->
             find_ext fname = Some (Z.to_nat p) ->
             ext_filter fname <> None -> deref fname p = Some "."%char).
  { intros p B F N. unfold deref.
    replace (0 <=? p) with true by (symmetry; apply Z.leb_le; lia).
    replace (p <=? Z.of_nat (String.length fname)) with true
      by (symmetry; apply Z.leb_le; lia).
    cbn [andb]. f_equal.
    assert (X : ext_filter fname = Some (Z.to_nat p)).
    { unfold ext_filter in *. rewrite F in *.
      destruct (negb (known_ext (from fname (Z.to_nat p))));
        [elim N|]; reflexivity. }
    pose proof (ext_filter_known _ _ X) as Y.
    destruct (from fname (Z.to_nat p)) as [|c r] eqn:E; [discriminate Y|].
    pose proof (known_ext_starts_with_dot _ _ Y). subst c.
    eapply at_from, E. }
  unfold ext_search_of. unfold find_ext in *.
  destruct (strrchr fname ".") as [e0|] eqn:E; [|reflexivity].
  destruct (strrchr_Some _ _ _ E) as (L & _ & _).
  cbv zeta.
  destruct (strcasecmp (from fname e0) ".gz" =? 0); cbn [andb] in *.
  - destruct e0 as [|q].
    + cbn [Z.of_nat Z.ltb Z.compare Nat.ltb Nat.leb] in *.
      split; [lia|]. split; [reflexivity|]. apply K; [lia|reflexivity].
    + replace (0 <? Z.of_nat (S q)) with true
        by (symmetry; apply Z.ltb_lt; lia).
      replace (0 <? S q)%nat with true in *
        by (symmetry; apply Nat.ltb_lt; lia).
      replace (S q - 1)%nat with q in * by lia.
      rewrite do_while_ext_back by lia.
      pose proof (back_to_dot_le fname q).
      rewrite Nat2Z.id in *.
      split; [lia|]. split; [reflexivity|].
      intros N. apply K; [lia|rewrite Nat2Z.id; reflexivity|exact N].
  - rewrite Nat2Z.id in *.
    split; [lia|]. split; [reflexivity|].
    intros N. apply K; [lia|rewrite Nat2Z.id; reflexivity|exact N].
Qed.

(** In Go-Regular.pcf.gz the pointer ends on the dot before "pcf". *)
Lemma ext_pointer_in_name_witness :
  ext_search_of "Go-Regular.pcf.gz" = ExtAt 10
  /\ deref "Go-Regular.pcf.gz" 10 = Some "."%char.
Proof.
  split; [reflexivity|].
  pose proof (ext_pointer_in_name "Go-Regular.pcf.gz") as H.
  change (ext_search_of "Go-Regular.pcf.gz") with (ExtAt 10) in H.
  cbv beta iota in H. apply H. vm_compute. discriminate.
Defined.

Lemma cmp_begins mid rest w :
  nul_free mid = true ->
  (strncasecmp (mid ++ rest) w (strlen mid) =? 0) = begins w mid.
Proof. intros NF. apply strncasecmp_prefix, NF. Qed.

Lemma begins_longer w1 w2 mid :
  take (String.length w1) w2 = w1 ->
  begins w1 mid = true -> begins w2 mid = true.
Proof.
  unfold begins. intros T H. apply andb_true_iff in H. destruct H as [E L].
  apply Nat.leb_le in L. apply andb_true_iff. split.
  - rewrite <- (take_take (String.length mid) (String.length w1) w2) by exact L.
    rewrite T. exact E.
  - apply Nat.leb_le. pose proof (length_take_le (String.length w1) w2) as X.
    assert (Y : String.length w1 = String.length (take (String.length w1) w2))
      by congruence.
    destruct (Nat.le_gt_cases (String.length w1) (String.length w2)) as [G|G];
      [lia|].
    rewrite length_take_short in Y by lia. lia.
Qed.

Lemma orb_absorbed a b : (a = true -> b = true) -> a || b = b.
Proof. destruct a, b; intros H; try reflexivity. discriminate (H eq_refl). Qed.

Lemma classify_prefix_variant :
  forall mid rest,
    nul_free mid = true ->
    classify (mid ++ rest) (strlen mid) = prefix_variant mid.
Proof.
  intros mid rest NF. unfold classify, prefix_variant.
  rewrite !cmp_begins by exact NF.
  assert (Z0 : (strlen mid =? 0) = (String.length mid =? 0)%nat).
  { unfold strlen. destruct (String.length mid); reflexivity. }
  rewrite Z0.
  rewrite <- (orb_assoc _ (begins "R" mid)).
  rewrite (orb_absorbed (begins "R" mid) (begins "Regular" mid))
    by (apply begins_longer; reflexivity).
  rewrite (orb_absorbed (begins "B" mid) (begins "Bold" mid))
    by (apply begins_longer; reflexivity).
  assert (I : begins "I" mid || begins "It" mid || begins "Italic" mid
              = begins "Italic" mid).
  { rewrite <- orb_assoc.
    rewrite (orb_absorbed (begins "It" mid)) by (apply begins_longer; reflexivity).
    apply orb_absorbed, begins_longer. reflexivity. }
  assert (O : begins "O" mid || (begins "Ob" mid || begins "Oblique" mid)
              = begins "Oblique" mid).
  { rewrite (orb_absorbed (begins "Ob" mid)) by (apply begins_longer; reflexivity).
    apply orb_absorbed, begins_longer. reflexivity. }
  assert (IO : begins "I" mid || begins "It" mid || begins "Italic" mid
               || begins "O" mid || begins "Ob" mid || begins "Oblique" mid
               = begins "Italic" mid || begins "Oblique" mid).
  { rewrite <- !orb_assoc. rewrite O.
    rewrite !orb_assoc. rewrite I. reflexivity. }
  rewrite IO.
  assert (BI : begins "BI" mid || begins "BoldIt" mid || begins "BoldItalic" mid
               = begins "BI" mid || begins "BoldItalic" mid).
  { rewrite <- orb_assoc.
    rewrite (orb_absorbed (begins "BoldIt" mid))
      by (apply begins_longer; reflexivity).
    reflexivity. }
  rewrite BI. reflexivity.
Qed.

(** X12: what the chain of comparisons over the mid part comes to.  A
    mid part free of NUL characters is offered to Regular when it is
    empty or a beginning of "Regular", to Bold when it is a beginning
    of "Bold", to Italic when it is a beginning of "Italic" or
    "Oblique", to BoldItalic when it is a beginning of "BI" or
    "BoldItalic" (in this order, without regard to case), and to no
    variant otherwise; the shorter words of the chain add nothing, and
    every word of the lexicon is covered. *)
Theorem classify_by_beginnings :
  forall mid rest,
    nul_free mid = true ->
    classify (mid ++ rest) (strlen mid) = prefix_variant mid
    /\ (forall v, Documented.lexicon_variant mid = Some v ->
                  prefix_variant mid = Some v).
Proof.
  intros mid rest NF. split; [apply classify_prefix_variant, NF|].
  intros v H. rewrite <- (classify_prefix_variant mid "" NF).
  apply classify_of_lexicon_word; assumption.
Qed.

(** "Obl" is offered to Italic, "Med" to no variant. *)
Lemma classify_by_beginnings_witness :
  nul_free "Obl" = true
  /\ classify "Obl.ttf" 3 = Some Italic
  /\ classify "Med.ttf" 3 = None.
Proof.
  split; [reflexivity|]. split.
  - exact (proj1 (classify_by_beginnings "Obl" ".ttf" eq_refl)).
  - exact (proj1 (classify_by_beginnings "Med" ".ttf" eq_refl)).
Defined.

(** *** Names of the form family, separator, mid part, extension *)

Lemma length_append p x :
  String.length (p ++ x) = (String.length p + String.length x)%nat.
Proof. induction p as [|c p IH]; cbn; [reflexivity|]. rewrite IH. reflexivity. Qed.

Lemma from_append p x k : from (p ++ x) (String.length p + k) = from x k.
Proof. induction p as [|c p IH]; cbn; [reflexivity|]. exact IH. Qed.

Lemma take_append p x k :
  take (String.length p + k) (p ++ x) = (p ++ take k x)%string.
Proof.
  induction p as [|c p IH]; cbn [String.length Nat.add append]; [reflexivity|].
  cbn [take]. rewrite IH. reflexivity.
Qed.

Lemma at_append p x k : at_ (p ++ x) (String.length p + k) = at_ x k.
Proof. induction p as [|c p IH]; cbn; [reflexivity|]. exact IH. Qed.

Lemma strrchr_append p x c :
  strrchr (p ++ x) c
  = match strrchr x c with
    | Some i => Some (String.length p + i)%nat
    | None => strrchr p c
    end.
Proof.
  induction p as [|a p IH]; cbn [append strrchr String.length Nat.add].
  - destruct (strrchr x c); reflexivity.
  - rewrite IH. destruct (strrchr x c); [reflexivity|].
    destruct (strrchr p c); reflexivity.
Qed.

Lemma lower_cons x a r :
  Documented.lower x = String a r ->
  exists c x', x = String c x' /\ tolower c = a /\ Documented.lower x' = r.
Proof.
  destruct x as [|c x']; cbn; [discriminate|].
  intros H. injection H as H1 H2. eauto.
Qed.

Lemma lower_nil x : Documented.lower x = "" -> x = "".
Proof. destruct x; [reflexivity|discriminate]. Qed.

Lemma not_dot c a :
  tolower c = a -> Ascii.eqb a "." = false -> Ascii.eqb c "." = false.
Proof.
  intros T N. destruct (Ascii.eqb_spec c ".") as [->|]; [|reflexivity].
  subst a. discriminate N.
Qed.

Ltac split_lower H :=
  repeat match type of H with
         | Documented.lower ?x = String _ _ =>
             let c := fresh "c" in
             let x' := fresh "x" in
             let T := fresh "T" in
             apply lower_cons in H; destruct H as (c & x' & -> & T & H)
         | Documented.lower ?x = EmptyString =>
             apply lower_nil in H; subst x
         end.

(** The accepted extensions, spelled out. *)
Lemma known_ext_cases x :
  nul_free x = true -> known_ext x = true ->
  Documented.lower x = ".ttf" \/ Documented.lower x = ".otf"
  \/ Documented.lower x = ".pcf.gz".
Proof.
  intros NF K. rewrite (known_ext_one_of x NF) in K.
  unfold Documented.one_of in K. cbn [existsb] in K.
  destruct (String.eqb_spec (Documented.lower x) ".ttf"); auto.
  destruct (String.eqb_spec (Documented.lower x) ".otf"); auto.
  destruct (String.eqb_spec (Documented.lower x) ".pcf.gz"); auto.
  discriminate K.
Qed.

Lemma gz_test x :
  nul_free x = true ->
  (strcasecmp x ".gz" =? 0) = String.eqb (Documented.lower x) ".gz".
Proof. intros NF. apply (strcasecmp_0 x ".gz" NF eq_refl). Qed.

(** In a name that ends with an accepted extension, the pointer [ext]
    ends on the first character of that extension, whatever comes
    before it. *)
Lemma find_ext_append p x :
  nul_free x = true -> known_ext x = true ->
  find_ext (p ++ x) = Some (String.length p).
Proof.
  intros NF K. unfold find_ext. rewrite strrchr_append.
  destruct (known_ext_cases x NF K) as [L|[L|L]]; pose proof L as L'.
  - split_lower L.
    cbn [strrchr].
    rewrite (not_dot _ _ T2 eq_refl), (not_dot _ _ T1 eq_refl),
      (not_dot _ _ T0 eq_refl).
    apply tolower_dot in T. subst c. cbn [Ascii.eqb Bool.eqb].
    rewrite from_append. cbn [from].
    rewrite gz_test, L' by exact NF. cbn [String.eqb Ascii.eqb Bool.eqb andb].
    rewrite Nat.add_0_r. reflexivity.
  - split_lower L.
    cbn [strrchr].
    rewrite (not_dot _ _ T2 eq_refl), (not_dot _ _ T1 eq_refl),
      (not_dot _ _ T0 eq_refl).
    apply tolower_dot in T. subst c. cbn [Ascii.eqb Bool.eqb].
    rewrite from_append. cbn [from].
    rewrite gz_test, L' by exact NF. cbn [String.eqb Ascii.eqb Bool.eqb andb].
    rewrite Nat.add_0_r. reflexivity.
  - pose proof (nul_free_from x 4 NF) as NF4. split_lower L.
    cbn [from] in NF4. cbn [strrchr].
    rewrite (not_dot _ _ T5 eq_refl), (not_dot _ _ T4 eq_refl).
    apply tolower_dot in T3. subst c3. cbn [Ascii.eqb Bool.eqb].
    rewrite from_append. cbn [from].
    assert (G : (strcasecmp (String "." (String c4 (String c5 ""))) ".gz" =? 0)
                = true).
    { rewrite gz_test.
      - cbn [Documented.lower]. rewrite T4, T5. reflexivity.
      - exact NF4. }
    rewrite G.
    assert (P : (0 <? String.length p + 4)%nat = true)
      by (apply Nat.ltb_lt; lia).
    rewrite P. cbn [andb]. f_equal.
    rewrite back_to_dot_spec
      by (rewrite length_append; cbn [String.length]; lia).
    replace (S (String.length p + 4 - 1)) with (String.length p + 4)%nat by lia.
    rewrite take_append, strrchr_append. cbn [take strrchr].
    rewrite (not_dot _ _ T2 eq_refl), (not_dot _ _ T1 eq_refl),
      (not_dot _ _ T0 eq_refl).
    apply tolower_dot in T. subst c. cbn [Ascii.eqb Bool.eqb]. lia.
Qed.

Lemma append_assoc a b c : ((a ++ b) ++ c)%string = (a ++ (b ++ c))%string.
Proof. induction a as [|x a IH]; cbn; [reflexivity|]. rewrite IH. reflexivity. Qed.

Lemma append_nil_r a : (a ++ "")%string = a.
Proof. induction a as [|x a IH]; cbn; [reflexivity|]. rewrite IH. reflexivity. Qed.

Lemma same_ignoring_case_length a b :
  Documented.same_ignoring_case a b = true -> String.length a = String.length b.
Proof.
  unfold Documented.same_ignoring_case. intros H. apply String.eqb_eq in H.
  apply (f_equal String.length) in H. rewrite !length_lower in H. exact H.
Qed.

(** X13: a regular file named with the family name (in any case), an
    optional separator, a mid part and an accepted extension is offered
    to the variant of its mid part by beginnings of words, with that
    extension and the depth of the report, and passed over when the
    mid part names no variant; what comes before the file name in the
    path plays no part. *)
Theorem named_file_is_offered :
  forall dir fam rest x lvl g,
    let s := sstate g in
    let fpath := (dir ++ fam ++ rest ++ x)%string in
    nul_free (fontname s) = true ->
    fontnamelen s = strlen (fontname s) ->
    Documented.same_ignoring_case fam (fontname s) = true ->
    nul_free rest = true ->
    nul_free x = true ->
    known_ext x = true ->
    strlen rest < 2 ^ 64 ->
    fontFileFilter fpath FTW_F (mkFTW (String.length dir) lvl) g
    = match prefix_variant (strip_separator rest) with
      | Some v => (0, snd (saveCandidate g fpath x lvl v))
      | None => (0, g)
      end.
Proof.
  intros dir fam rest x lvl g s fpath NFn L SC NFr NFx K B.
  pose proof (same_ignoring_case_length _ _ SC) as LEN.
  unfold fontFileFilter. cbn [tflag_eqb andb negb base Ftw.level]. fold s.
  assert (F : from fpath (String.length dir) = (fam ++ rest ++ x)%string).
  { unfold fpath. rewrite <- (Nat.add_0_r (String.length dir)).
    apply from_append. }
  rewrite F.
  assert (E : ext_filter (fam ++ rest ++ x) = Some (String.length (fam ++ rest))).
  { unfold ext_filter. rewrite <- append_assoc.
    rewrite (find_ext_append (fam ++ rest) x NFx K).
    rewrite <- (Nat.add_0_r (String.length (fam ++ rest))) at 1.
    rewrite from_append. cbn [from]. rewrite K. reflexivity. }
  rewrite E.
  assert (X : from (fam ++ rest ++ x) (String.length (fam ++ rest)) = x).
  { rewrite <- append_assoc.
    rewrite <- (Nat.add_0_r (String.length (fam ++ rest))).
    apply from_append. }
  rewrite X.
  assert (N : (strncasecmp (fam ++ rest ++ x) (fontname s) (fontnamelen s) =? 0)
              = true).
  { rewrite L, (strncasecmp_begins (fontname s) NFn), <- LEN.
    rewrite <- (Nat.add_0_r (String.length fam)), take_append.
    cbn [take]. rewrite append_nil_r. exact SC. }
  rewrite N. cbn [negb].
  assert (M : mid_part (fam ++ rest ++ x) (fontnamelen s)
                       (String.length (fam ++ rest))
              = if (0 <? strlen rest)
                   && is_separator (at_ (rest ++ x) 0)
                then (S (String.length fam), strlen rest - 1)
                else (String.length fam, strlen rest)).
  { assert (A1 : Z.to_nat (fontnamelen s) = String.length fam).
    { rewrite L. unfold strlen. rewrite Nat2Z.id. congruence. }
    assert (A2 : to_size_t (Z.of_nat (String.length (fam ++ rest))
                            - fontnamelen s) = strlen rest).
    { rewrite L, length_append. unfold to_size_t, strlen in *.
      rewrite <- LEN, Z.mod_small; lia. }
    unfold mid_part. rewrite A1, A2.
    rewrite <- (Nat.add_0_r (String.length fam)) at 1.
    rewrite at_append. reflexivity. }
  rewrite M. clear M.
  destruct rest as [|c m].
  - cbn [strlen String.length Z.of_nat Z.ltb Z.compare andb].
    rewrite <- (Nat.add_0_r (String.length fam)), from_append. cbn [from append].
    reflexivity.
  - assert (P : (0 <? strlen (String c m)) = true).
    { apply Z.ltb_lt. unfold strlen. cbn [String.length]. lia. }
    rewrite P. cbn [andb append at_ strip_separator].
    cbn [nul_free] in NFr. apply andb_true_iff in NFr. destruct NFr as [Hc NFm].
    destruct (is_separator c).
    + replace (S (String.length fam)) with (String.length fam + 1)%nat by lia.
      rewrite from_append. cbn [from].
      replace (strlen (String c m) - 1) with (strlen m)
        by (unfold strlen; cbn [String.length]; lia).
      rewrite (classify_prefix_variant m x NFm). reflexivity.
    + rewrite <- (Nat.add_0_r (String.length fam)), from_append. cbn [from].
      change (String c (m ++ x)) with (String c m ++ x)%string.
      rewrite (classify_prefix_variant (String c m) x).
      * reflexivity.
      * cbn [nul_free]. rewrite Hc, NFm. reflexivity.
Qed.

(** fonts/Go/GO_bold.TTF is offered to Bold for the family "Go". *)
Lemma named_file_is_offered_witness :
  let g := with_sstate (set_fontname "Go") globals_init in
  bold (sstate (snd (fontFileFilter "fonts/Go/GO_bold.TTF" FTW_F
                       (mkFTW 9 2) g)))
  = "fonts/Go/GO_bold.TTF".
Proof.
  exact (f_equal (fun r => bold (sstate (snd r)))
           (named_file_is_offered "fonts/Go/" "GO" "_bold" ".TTF" 2
              (with_sstate (set_fontname "Go") globals_init)
              eq_refl eq_refl eq_refl eq_refl eq_refl eq_refl eq_refl)).
Defined.

(** *** A family name that reaches into the extension *)

(** Over more characters than the string has, the bounded comparison
    is the unbounded one. *)
Lemma strncasecmp_large a :
  forall w n,
    nul_free a = true -> nul_free w = true -> strlen a < n ->
    (strncasecmp a w n =? 0)
    = String.eqb (Documented.lower a) (Documented.lower w).
Proof.
  induction a as [|c a IH]; intros w n NFa NFw H.
  - assert (P : (n <=? 0) = false)
      by (apply Z.leb_gt; unfold strlen in H; cbn in H; lia).
    destruct w as [|d w]; cbn [strncasecmp]; rewrite P; [reflexivity|].
    cbn [nul_free] in NFw. apply andb_true_iff in NFw. destruct NFw as [Hd _].
    cbn. destruct (uchar (tolower d) =? 0) eqn:E.
    + apply Z.eqb_eq in E. apply uchar_nul, tolower_nul in E. subst d.
      discriminate Hd.
    + destruct (uchar (tolower d)); try reflexivity; discriminate.
  - assert (P : (n <=? 0) = false).
    { apply Z.leb_gt. unfold strlen in H. cbn [String.length] in H. lia. }
    cbn [nul_free] in NFa. apply andb_true_iff in NFa. destruct NFa as [Hc NFa].
    destruct w as [|d w]; cbn [strncasecmp]; rewrite P.
    + cbn. rewrite Z.sub_0_r. destruct (uchar (tolower c) =? 0) eqn:E;
        [|reflexivity].
      apply Z.eqb_eq in E. apply uchar_nul, tolower_nul in E. subst c.
      discriminate Hc.
    + cbn [nul_free] in NFw. apply andb_true_iff in NFw.
      destruct NFw as [_ NFw].
      cbn [Documented.lower String.eqb].
      destruct (Ascii.eqb_spec (tolower c) (tolower d)) as [E|E].
      * apply IH; auto. unfold strlen in *. cbn [String.length] in H. lia.
      * apply Z.eqb_neq. intros C. apply E, uchar_inj. lia.
Qed.

Lemma separator_folded c a :
  tolower c = a -> is_separator a = false -> is_separator c = false.
Proof.
  intros T N. destruct (is_separator c) eqn:S; [|reflexivity].
  unfold is_separator in S.
  destruct (Ascii.eqb_spec c "-") as [->|];
    [subst a; discriminate N|].
  destruct (Ascii.eqb_spec c "_") as [->|];
    [subst a; discriminate N|].
  destruct (Ascii.eqb_spec c " ") as [->|];
    [subst a; discriminate N|discriminate S].
Qed.

(** The comparisons of the chain, over more characters than the mid
    part has: whole words only, and the empty mid part names nothing. *)
Lemma classify_large a n :
  nul_free a = true -> strlen a < n ->
  classify a n
  = let eq w := String.eqb (Documented.lower a) w in
    if eq "r" || eq "regular" then Some Regular
    else if eq "b" || eq "bold" then Some Bold
    else if eq "i" || eq "it" || eq "italic"
            || eq "o" || eq "ob" || eq "oblique" then Some Italic
    else if eq "bi" || eq "boldit" || eq "bolditalic" then Some BoldItalic
    else None.
Proof.
  intros NF H. unfold classify.
  rewrite !(strncasecmp_large a) by (exact NF || reflexivity || exact H).
  assert (Z0 : (n =? 0) = false).
  { apply Z.eqb_neq. unfold strlen in H. lia. }
  rewrite Z0. reflexivity.
Qed.

Ltac fold_chars :=
  repeat match goal with
         | T : tolower ?c = _ |- context [tolower ?c] => rewrite T
         end.

(** No proper end of an accepted extension starts with a separator or
    is a word of the chain. *)
Lemma extension_tail_names_nothing x k n :
  nul_free x = true -> known_ext x = true ->
  (1 <= k)%nat -> strlen x < n ->
  is_separator (at_ x k) = false /\ classify (from x k) n = None.
Proof.
  intros NF K Hk Hn.
  assert (NFk : nul_free (from x k) = true) by (apply nul_free_from, NF).
  assert (Lk : strlen (from x k) < n).
  { assert (String.length (from x k) <= String.length x)%nat.
    { clear. revert x. induction k as [|k IH]; intros [|c r]; cbn; try lia.
      specialize (IH r). lia. }
    unfold strlen in *. lia. }
  rewrite (classify_large _ n NFk Lk). clear NFk Lk Hn.
  destruct k as [|k]; [lia|]. clear Hk.
  destruct (known_ext_cases x NF K) as [L|[L|L]]; split_lower L; clear K NF.
  - do 4 (try destruct k as [|k]); cbn [from at_ Documented.lower];
      (split;
       [first [ reflexivity
              | eapply separator_folded; [eassumption|reflexivity] ]
       |fold_chars; reflexivity]).
  - do 4 (try destruct k as [|k]); cbn [from at_ Documented.lower];
      (split;
       [first [ reflexivity
              | eapply separator_folded; [eassumption|reflexivity] ]
       |fold_chars; reflexivity]).
  - do 7 (try destruct k as [|k]); cbn [from at_ Documented.lower];
      (split;
       [first [ reflexivity
              | eapply separator_folded; [eassumption|reflexivity] ]
       |fold_chars; reflexivity]).
Qed.

Lemma at_from_plus s e k : at_ s (e + k) = at_ (from s e) k.
Proof.
  revert s. induction e as [|e IH]; intros s; [reflexivity|].
  destruct s as [|c r]; cbn [Nat.add at_ from]; [destruct k; reflexivity|].
  apply IH.
Qed.

Lemma length_from_le s k : (String.length (from s k) <= String.length s)%nat.
Proof.
  revert s. induction k as [|k IH]; intros [|c r]; cbn; try lia.
  specialize (IH r). lia.
Qed.

(** X15: the length of the mid part is computed as [ext - mid] in
    [size_t].  When the family name reaches into the extension of a
    file (its length exceeds the offset of [ext], as with the family
    "Go.t" against Go.ttf), that difference wraps around to a huge
    value; the file is then passed over, whatever its name. *)
Theorem family_name_into_extension :
  forall fpath ftwbuf g e,
    let s := sstate g in
    let fname := from fpath (base ftwbuf) in
    nul_free fname = true ->
    nul_free (fontname s) = true ->
    fontnamelen s = strlen (fontname s) ->
    ext_filter fname = Some e ->
    (e < String.length (fontname s))%nat ->
    strlen fname < 2 ^ 63 ->
    fontFileFilter fpath FTW_F ftwbuf g = (0, g).
Proof.
  intros fpath ftwbuf g e s fname NF NFn L E H B.
  unfold fontFileFilter. cbn [tflag_eqb andb negb]. fold s fname. rewrite E.
  destruct (strncasecmp fname (fontname s) (fontnamelen s) =? 0) eqn:N;
    cbn [negb]; [|reflexivity].
  rewrite L, (strncasecmp_begins (fontname s) NFn) in N.
  assert (LE : (String.length (fontname s) <= String.length fname)%nat).
  { pose proof (same_ignoring_case_length _ _ N) as T.
    destruct (Nat.le_gt_cases (String.length (fontname s)) (String.length fname))
      as [G|G]; [exact G|].
    rewrite length_take_short in T by lia. lia. }
  set (ln := String.length (fontname s)) in *.
  set (k := (ln - e)%nat).
  set (x := from fname e).
  assert (Kx : known_ext x = true) by (apply ext_filter_known, E).
  assert (NFx : nul_free x = true) by (apply nul_free_from, NF).
  set (n := to_size_t (Z.of_nat e - fontnamelen s)).
  assert (Hn : n = 2 ^ 64 + Z.of_nat e - Z.of_nat ln).
  { unfold n, to_size_t. rewrite L. unfold strlen. fold ln.
    rewrite <- (Z_mod_plus_full _ 1 (2 ^ 64)).
    unfold strlen in B. rewrite Z.mod_small; lia. }
  assert (Big : strlen x < n).
  { pose proof (length_from_le fname e). unfold strlen in *. fold x in H0. lia. }
  destruct (extension_tail_names_nothing x k n NFx Kx) as [S C];
    [unfold k; lia|exact Big|].
  assert (A : at_ fname ln = at_ x k).
  { replace ln with (e + k)%nat by (unfold k; lia). apply at_from_plus. }
  assert (F : from fname ln = from x k).
  { replace ln with (e + k)%nat by (unfold k; lia).
    unfold x. symmetry. apply from_from. }
  unfold mid_part. fold n.
  replace (Z.to_nat (fontnamelen s)) with ln
    by (rewrite L; unfold strlen; rewrite Nat2Z.id; reflexivity).
  rewrite A, S, andb_false_r, F, C. reflexivity.
Qed.

(** With the family "Go.t", fonts/Go.ttf is passed over. *)
Lemma family_name_into_extension_witness :
  let g := with_sstate (set_fontname "Go.t") globals_init in
  (ext_filter "Go.ttf" = Some 2%nat
   /\ (2 < String.length (fontname (sstate g)))%nat
   /\ strlen "Go.ttf" < 2 ^ 63)
  /\ fontFileFilter "fonts/Go.ttf" FTW_F (mkFTW 6 1) g = (0, g).
Proof.
  split; [repeat split; cbn; lia|].
  apply (family_name_into_extension "fonts/Go.ttf" (mkFTW 6 1)
           (with_sstate (set_fontname "Go.t") globals_init) 2);
    try reflexivity; cbn; lia.
Defined.

End FontpackSearch.
